(** * entire-cli: session state machine, attribution engine, content overlap

    A shallow embedding of

    - [src/session/state-machine.ts]  ([transition], [applyTransition]),
    - the attribution module ([diffLines], [getAllChangedFiles],
      [calculateAttributionWithAccumulated], [calculatePromptAttribution]),
    - [src/utils/string-utils.ts]     ([countLines]),
    - the content-overlap module ([filesOverlapWithContent],
      [hasSignificantContentOverlap]),

    followed by the properties the specification states about them.

    Conventions.
    - A JavaScript [number] that holds a line count is an integer far below
      2^53, so it is exact; it is modelled by [Z].  The only quotient, the
      agent percentage, is modelled by the rational it denotes ([Q]).
    - A JavaScript string is a [string]: a sequence of code units, here
      restricted to the range 0..255.
    - [Map<string, V>] and [Record<string, V>] are [gmap string V]; every loop
      over one of them only sums, so the iteration order is immaterial.
    - A [Set<string>] that is iterated is a duplicate-free list in insertion
      order; one that is only queried is a membership test on the list it
      was built from.
    - An [async] handler method is a function from the state object it is
      given to the state it leaves and the value it throws, if any; the
      clock and [gitSafe] are parameters. *)

From Stdlib Require Import ZArith QArith Ascii String Lia.
From stdpp Require Import base decidable option list strings gmap gmultiset.

Local Open Scope string_scope.
Local Open Scope Z_scope.

#[local] Set Warnings "-clear-no-such-hyp".

(* ===================================================================== *)
(** * Part I: the program                                                *)
(* ===================================================================== *)

(** ** Session state machine ([src/session/state-machine.ts]) *)

Module StateMachine.

Inductive Phase := active | idle | ended.

#[global] Instance Phase_eq_dec : EqDecision Phase.
Proof. solve_decision. Defined.

(** [phaseFromString]: [None] is [undefined]. *)
Definition phaseFromString (s : option string) : Phase :=
  match s with
  | Some "active" | Some "active_committed" => active
  | Some "idle" => idle
  | Some "ended" => ended
  | _ => idle
  end.

Definition phaseToString (p : Phase) : string :=
  match p with
  | active => "active"
  | idle => "idle"
  | ended => "ended"
  end.

(** [const enum StateMachineEvent]. *)
Inductive StateMachineEvent :=
| TurnStart | TurnEnd | GitCommit | SessionStart | SessionStop | Compaction.

(** [const enum Action]. *)
Inductive Action :=
| Condense | CondenseIfFilesTouched | DiscardIfNoFiles | WarnStaleSession
| ClearEndedAt | UpdateLastInteraction.

#[global] Instance Action_eq_dec : EqDecision Action.
Proof. solve_decision. Defined.

Record TransitionContext := {
  hasFilesTouched : bool;
  isRebaseInProgress : bool;
}.

Record TransitionResult := {
  newPhase : Phase;
  actions : list Action;
}.

Definition transitionFromIdle (event : StateMachineEvent) (ctx : TransitionContext)
  : TransitionResult :=
  match event with
  | TurnStart => {| newPhase := active; actions := [UpdateLastInteraction] |}
  | TurnEnd => {| newPhase := idle; actions := [] |}
  | GitCommit =>
      if isRebaseInProgress ctx then {| newPhase := idle; actions := [] |}
      else {| newPhase := idle; actions := [Condense; UpdateLastInteraction] |}
  | SessionStart => {| newPhase := idle; actions := [] |}
  | SessionStop => {| newPhase := ended; actions := [UpdateLastInteraction] |}
  | Compaction =>
      {| newPhase := idle; actions := [CondenseIfFilesTouched; UpdateLastInteraction] |}
  end.

Definition transitionFromActive (event : StateMachineEvent) (ctx : TransitionContext)
  : TransitionResult :=
  match event with
  | TurnStart => {| newPhase := active; actions := [UpdateLastInteraction] |}
  | TurnEnd => {| newPhase := idle; actions := [UpdateLastInteraction] |}
  | GitCommit =>
      if isRebaseInProgress ctx then {| newPhase := active; actions := [] |}
      else {| newPhase := active; actions := [Condense; UpdateLastInteraction] |}
  | SessionStart => {| newPhase := active; actions := [WarnStaleSession] |}
  | SessionStop => {| newPhase := ended; actions := [UpdateLastInteraction] |}
  | Compaction =>
      {| newPhase := active; actions := [CondenseIfFilesTouched; UpdateLastInteraction] |}
  end.

Definition transitionFromEnded (event : StateMachineEvent) (ctx : TransitionContext)
  : TransitionResult :=
  match event with
  | TurnStart => {| newPhase := active; actions := [ClearEndedAt; UpdateLastInteraction] |}
  | TurnEnd => {| newPhase := ended; actions := [] |}
  | GitCommit =>
      if isRebaseInProgress ctx then {| newPhase := ended; actions := [] |}
      else if hasFilesTouched ctx then
        {| newPhase := ended; actions := [CondenseIfFilesTouched; UpdateLastInteraction] |}
      else
        {| newPhase := ended; actions := [DiscardIfNoFiles; UpdateLastInteraction] |}
  | SessionStart => {| newPhase := idle; actions := [ClearEndedAt] |}
  | SessionStop => {| newPhase := ended; actions := [] |}
  | Compaction => {| newPhase := ended; actions := [] |}
  end.

(** [transition]: the phase arrives as the string stored in the session
    file and is normalised first. *)
Definition transition (current : string) (event : StateMachineEvent)
    (ctx : TransitionContext) : TransitionResult :=
  match phaseFromString (Some current) with
  | idle => transitionFromIdle event ctx
  | active => transitionFromActive event ctx
  | ended => transitionFromEnded event ctx
  end.

(** *** The action harness *)

Record StateMachineState := {
  sessionID : string;
  phase : Phase;
  filesTouched : list string;
  lastInteractionTime : option string;
  endedAt : option string;
}.

Definition set_phase (p : Phase) (s : StateMachineState) : StateMachineState :=
  {| sessionID := sessionID s; phase := p; filesTouched := filesTouched s;
     lastInteractionTime := lastInteractionTime s; endedAt := endedAt s |}.

Definition set_lastInteractionTime (t : option string) (s : StateMachineState)
  : StateMachineState :=
  {| sessionID := sessionID s; phase := phase s; filesTouched := filesTouched s;
     lastInteractionTime := t; endedAt := endedAt s |}.

Definition set_endedAt (t : option string) (s : StateMachineState) : StateMachineState :=
  {| sessionID := sessionID s; phase := phase s; filesTouched := filesTouched s;
     lastInteractionTime := lastInteractionTime s; endedAt := t |}.

(** What a [catch (e)] clause can receive: an [Error] object, or any other
    value, of which only [String(e)] is used. *)
Record Error := { message : string }.

Inductive Thrown :=
| ThrownError (e : Error)
| ThrownValue (shown : string).

(** [e instanceof Error ? e : new Error(String(e))] *)
Definition toError (t : Thrown) : Error :=
  match t with
  | ThrownError e => e
  | ThrownValue shown => {| message := shown |}
  end.

(** A handler method receives the mutable state object: it returns the
    state as it left it, and what it threw, if anything. *)
Definition HandlerMethod := StateMachineState -> StateMachineState * option Thrown.

Record ActionHandler := {
  handleCondense : HandlerMethod;
  handleCondenseIfFilesTouched : HandlerMethod;
  handleDiscardIfNoFiles : HandlerMethod;
  handleWarnStaleSession : HandlerMethod;
}.


(** The handler method an action is dispatched to; [None] for the two
    field mutations the harness performs itself. *)
Definition handlerFor (h : ActionHandler) (a : Action) : option HandlerMethod :=
  match a with
  | Condense => Some (handleCondense h)
  | CondenseIfFilesTouched => Some (handleCondenseIfFilesTouched h)
  | DiscardIfNoFiles => Some (handleDiscardIfNoFiles h)
  | WarnStaleSession => Some (handleWarnStaleSession h)
  | ClearEndedAt | UpdateLastInteraction => None
  end.

Definition isHandlerAction (a : Action) : bool :=
  match a with
  | ClearEndedAt | UpdateLastInteraction => false
  | _ => true
  end.

(** The loop variables of [applyTransition], with the record of the
    handler calls made so far (each with the state it was given): the
    observable behaviour of the harness towards the handler. *)
Record Run := {
  state : StateMachineState;
  handlerErr : option Error;
  calls : list (Action * StateMachineState);
}.

(** [if (!handlerErr) { try { await handler.handleX(state) } catch (e) {
    handlerErr = ... } }] for the handler method of [action]. *)
Definition tryHandler (method : HandlerMethod) (action : Action) (r : Run) : Run :=
  match handlerErr r with
  | Some _ => r
  | None =>
      let '(s', thrown) := method (state r) in
      {| state := s';
         handlerErr := toError <$> thrown;
         calls := calls r ++ [(action, state r)] |}
  end.

Section Harness.
(** [new Date().toISOString()] as read while the action at a given
    position of the list is executed. *)
Variable now : nat -> string.
Variable handler : ActionHandler.

(** One iteration of [for (const action of result.actions) switch ...];
    [i] is the position of [action] in the list. *)
Definition step (r : Run) (i : nat) (action : Action) : Run :=
  match action with
  | UpdateLastInteraction =>
      {| state := set_lastInteractionTime (Some (now i)) (state r);
         handlerErr := handlerErr r; calls := calls r |}
  | ClearEndedAt =>
      {| state := set_endedAt None (state r);
         handlerErr := handlerErr r; calls := calls r |}
  | Condense => tryHandler (handleCondense handler) Condense r
  | CondenseIfFilesTouched =>
      tryHandler (handleCondenseIfFilesTouched handler) CondenseIfFilesTouched r
  | DiscardIfNoFiles => tryHandler (handleDiscardIfNoFiles handler) DiscardIfNoFiles r
  | WarnStaleSession => tryHandler (handleWarnStaleSession handler) WarnStaleSession r
  end.

Fixpoint loop (r : Run) (i : nat) (acts : list Action) : Run :=
  match acts with
  | [] => r
  | a :: rest => loop (step r i a) (S i) rest
  end.

(** [applyTransition]: the final state of the mutated object, the
    returned [Error | null], and the handler calls made. *)
Definition applyTransition (s : StateMachineState) (result : TransitionResult) : Run :=
  loop {| state := set_phase (newPhase result) s; handlerErr := None; calls := [] |}
       0%nat (actions result).

(** The two field mutations the harness performs itself, and nothing
    else: what remains of an iteration once handler calls are skipped. *)
Definition applyCommon (s : StateMachineState) (i : nat) (action : Action)
  : StateMachineState :=
  match action with
  | UpdateLastInteraction => set_lastInteractionTime (Some (now i)) s
  | ClearEndedAt => set_endedAt None s
  | _ => s
  end.

Fixpoint commonOnly (s : StateMachineState) (i : nat) (acts : list Action)
  : StateMachineState :=
  match acts with
  | [] => s
  | a :: rest => commonOnly (applyCommon s i a) (S i) rest
  end.
End Harness.

(** The fields the harness itself writes. *)
Definition harnessFields (s : StateMachineState) : Phase * option string * option string :=
  (phase s, lastInteractionTime s, endedAt s).

(** A handler method that leaves these three fields alone. *)
Definition keepsHarnessFields (m : HandlerMethod) : Prop :=
  forall s,
    phase (m s).1 = phase s /\
    lastInteractionTime (m s).1 = lastInteractionTime s /\
    endedAt (m s).1 = endedAt s.

Definition handlerKeepsHarnessFields (h : ActionHandler) : Prop :=
  forall a m, handlerFor h a = Some m -> keepsHarnessFields m.

End StateMachine.

(** ** JavaScript string primitives used by the program *)

Module JsString.

Definition newline : ascii := "010"%char.

(** [s.split('\n')]: never empty, [''.split('\n')] is [['']]. *)
Fixpoint split (s : string) : list string :=
  match s with
  | EmptyString => [EmptyString]
  | String c rest =>
      if Ascii.eqb c newline then EmptyString :: split rest
      else match split rest with
           | [] => [String c EmptyString]
           | line :: lines => String c line :: lines
           end
  end.

Fixpoint lastChar (s : string) : option ascii :=
  match s with
  | EmptyString => None
  | String c EmptyString => Some c
  | String _ rest => lastChar rest
  end.

(** [s.endsWith('\n')] *)
Definition endsWithNewline (s : string) : bool :=
  match lastChar s with
  | Some c => Ascii.eqb c newline
  | None => false
  end.

(** White space and line terminators among the code units 0..255:
    TAB, LF, VT, FF, CR, SP, NBSP. *)
Definition isWhiteSpace (c : ascii) : bool :=
  let n := nat_of_ascii c in
  ((9 <=? n) && (n <=? 13) || (n =? 32) || (n =? 160))%nat.

Fixpoint trimStart (s : string) : string :=
  match s with
  | EmptyString => EmptyString
  | String c rest => if isWhiteSpace c then trimStart rest else s
  end.

(** Drops trailing white space; a string of white space only becomes ['']. *)
Fixpoint trimEnd (s : string) : string :=
  match s with
  | EmptyString => EmptyString
  | String c rest =>
      match trimEnd rest with
      | EmptyString => if isWhiteSpace c then EmptyString else String c EmptyString
      | rest' => String c rest'
      end
  end.

(** [s.trim()] *)
Definition trim (s : string) : string := trimEnd (trimStart s).

End JsString.

(** ** [countLines] ([src/utils/string-utils.ts]) *)

Module StringUtils.
Import JsString.

(** [for (i = 0; i < content.length; i++) if (content[i] === '\n') lines++] *)
Fixpoint countNewlinesFrom (lines : Z) (content : string) : Z :=
  match content with
  | EmptyString => lines
  | String c rest =>
      countNewlinesFrom (if Ascii.eqb c newline then lines + 1 else lines) rest
  end.

Definition countLines (content : string) : Z :=
  if String.eqb content EmptyString then 0
  else
    let lines := countNewlinesFrom 0 content in
    if negb (endsWithNewline content) then lines + 1 else lines.

End StringUtils.

(** ** Attribution engine *)

Module Attribution.
Import JsString StringUtils.

(** [m.get(k) ?? 0] *)
Definition getOr0 (m : gmap string Z) (k : string) : Z := default 0 (m !! k).

(** [m.get(k) ?? ''] *)
Definition getOrEmpty (m : gmap string string) (k : string) : string :=
  default EmptyString (m !! k).

(** [content.split('\n')], then [pop()] when the last element is [''] and
    the content ends with a newline. *)
Definition splitLines (content : string) : list string :=
  let lines := split content in
  if bool_decide (list.last lines = Some EmptyString) && endsWithNewline content
  then List.removelast lines else lines.

(** [for (const line of oldLines) oldSet.set(line, (oldSet.get(line) ?? 0) + 1)] *)
Definition countOccurrences (lines : list string) : gmap string Z :=
  foldl (fun oldSet line => <[line := getOr0 oldSet line + 1]> oldSet) ∅ lines.

(** Body of the loop over [newLines]; the accumulator is
    [(unchanged, matchedOld)]. *)
Definition matchLine (oldSet : gmap string Z) (acc : Z * gmap string Z) (line : string)
  : Z * gmap string Z :=
  let '(unchanged, matchedOld) := acc in
  let available := getOr0 oldSet line - getOr0 matchedOld line in
  if 0 <? available
  then (unchanged + 1, <[line := getOr0 matchedOld line + 1]> matchedOld)
  else (unchanged, matchedOld).

(** [diffLines]: [(unchanged, added, removed)]. *)
Definition diffLines (oldContent newContent : string) : Z * Z * Z :=
  if String.eqb oldContent newContent then (countLines newContent, 0, 0)
  else if String.eqb oldContent EmptyString then (0, countLines newContent, 0)
  else if String.eqb newContent EmptyString then (0, 0, countLines oldContent)
  else
    let oldLines := splitLines oldContent in
    let newLines := splitLines newContent in
    let oldSet := countOccurrences oldLines in
    let unchanged := fst (foldl (matchLine oldSet) (0, ∅) newLines) in
    let removed := Z.of_nat (length oldLines) - unchanged in
    let added := Z.of_nat (length newLines) - unchanged in
    (unchanged, added, removed).

Definition diffAdded (oldContent newContent : string) : Z :=
  snd (fst (diffLines oldContent newContent)).

Definition diffRemoved (oldContent newContent : string) : Z :=
  snd (diffLines oldContent newContent).

(** [getAllChangedFiles]: the paths whose content differs between the two
    trees, then the paths only the second tree has.  The two parts are
    disjoint and each is duplicate free, so the list is the [Set] the
    source collects them in. *)
Definition getAllChangedFiles (tree1 tree2 : gmap string string) : list string :=
  (filter (fun entry => tree2 !! entry.1 <> Some entry.2) (map_to_list tree1)).*1
  ++ filter (fun path => tree1 !! path = None) (map_to_list tree2).*1.

(** [PromptAttribution] ([src/strategy/types.ts]) *)
Record PromptAttribution := {
  checkpointNumber : Z;
  userLinesAdded : Z;
  userLinesRemoved : Z;
  agentLinesAdded : Z;
  agentLinesRemoved : Z;
  (** a [Record<string, number>]: its own enumerable properties, as
      [Object.entries] lists them *)
  userAddedPerFile : gmap string Z;
}.

(** [InitialAttribution] ([src/types.ts]) *)
Record InitialAttribution := {
  calculatedAt : string;
  agentLines : Z;
  humanAdded : Z;
  humanModified : Z;
  humanRemoved : Z;
  totalCommitted : Z;
  agentPercentage : Q;
}.

(** [estimateUserSelfModifications] *)
Definition estimateUserSelfModifications
    (accumulatedUserAddedPerFile postCheckpointUserRemovedPerFile : gmap string Z) : Z :=
  map_fold (fun filePath removed selfModified =>
              let userAddedToFile := getOr0 accumulatedUserAddedPerFile filePath in
              selfModified + Z.min removed userAddedToFile)
           0 postCheckpointUserRemovedPerFile.

(** The inner loop over [Object.entries(pa.userAddedPerFile)]. *)
Definition addUserAddedPerFile (acc perFile : gmap string Z) : gmap string Z :=
  map_fold (fun filePath added acc => <[filePath := getOr0 acc filePath + added]> acc)
           acc perFile.

(** Accumulators of the loop over [filesTouched]. *)
Record TouchedTotals := {
  totalAgentAndUserWork : Z;
  postCheckpointUserAdded : Z;
  postCheckpointUserRemoved : Z;
  postCheckpointUserRemovedPerFile : gmap string Z;
}.

(** The sums the final split starts from. *)
Record Totals := {
  totalAgentAdded : Z;
  totalUserAdded : Z;
  totalUserRemoved : Z;
  userSelfModified : Z;
}.

(** Second half of [calculateAttributionWithAccumulated], from
    [totalHumanModified] to the returned object. *)
Definition finalSplit (now : string) (t : Totals) : InitialAttribution :=
  let totalAgentAdded := totalAgentAdded t in
  let totalUserAdded := totalUserAdded t in
  let totalUserRemoved := totalUserRemoved t in
  let userSelfModified := userSelfModified t in
  let totalHumanModified := Z.min totalUserAdded totalUserRemoved in
  let humanModifiedAgent := Z.max 0 (totalHumanModified - userSelfModified) in
  let pureUserAdded := totalUserAdded - totalHumanModified in
  let pureUserRemoved := totalUserRemoved - totalHumanModified in
  let totalCommitted0 := totalAgentAdded + pureUserAdded - pureUserRemoved in
  let totalCommitted :=
    if totalCommitted0 <=? 0 then Z.max 0 totalAgentAdded else totalCommitted0 in
  let agentLinesInCommit :=
    Z.max 0 (totalAgentAdded - pureUserRemoved - humanModifiedAgent) in
  let agentPercentage :=
    if 0 <? totalCommitted
    then (inject_Z agentLinesInCommit / inject_Z totalCommitted * 100)%Q
    else 0%Q in
  {| calculatedAt := now;
     agentLines := agentLinesInCommit;
     humanAdded := pureUserAdded;
     humanModified := totalHumanModified;
     humanRemoved := pureUserRemoved;
     totalCommitted := totalCommitted;
     agentPercentage := agentPercentage |}.

Section Accumulated.
Variables baseFiles shadowFiles headFiles : gmap string string.

Definition touchedStep (t : TouchedTotals) (filePath : string) : TouchedTotals :=
  let baseContent := getOrEmpty baseFiles filePath in
  let shadowContent := getOrEmpty shadowFiles filePath in
  let headContent := getOrEmpty headFiles filePath in
  let workAdded := diffAdded baseContent shadowContent in
  let postUserAdded := diffAdded shadowContent headContent in
  let postUserRemoved := diffRemoved shadowContent headContent in
  {| totalAgentAndUserWork := totalAgentAndUserWork t + workAdded;
     postCheckpointUserAdded := postCheckpointUserAdded t + postUserAdded;
     postCheckpointUserRemoved := postCheckpointUserRemoved t + postUserRemoved;
     postCheckpointUserRemovedPerFile :=
       if 0 <? postUserRemoved
       then <[filePath := postUserRemoved]> (postCheckpointUserRemovedPerFile t)
       else postCheckpointUserRemovedPerFile t |}.

(** Body of the loop over [nonAgentFiles]. *)
Definition nonAgentStep (filesTouched : list string) (total : Z) (filePath : string) : Z :=
  if bool_decide (filePath ∈ filesTouched) then total
  else total + diffAdded (getOrEmpty baseFiles filePath) (getOrEmpty headFiles filePath).

(** Body of the loop that separates the accumulated additions; the
    accumulator is
    [(accumulatedToAgentFiles, accumulatedToCommittedNonAgentFiles)]. *)
Definition separateStep (filesTouched committedNonAgent : list string)
    (filePath : string) (added : Z) (acc : Z * Z) : Z * Z :=
  if bool_decide (filePath ∈ filesTouched) then (acc.1 + added, acc.2)
  else if bool_decide (filePath ∈ committedNonAgent) then (acc.1, acc.2 + added)
  else acc.

(** First half of [calculateAttributionWithAccumulated], down to
    [totalUserRemoved] and the call of [estimateUserSelfModifications]:
    the four sums the final split is computed from. *)
Definition userAndAgentTotals (filesTouched : list string)
    (promptAttributions : list PromptAttribution) : Totals :=
  let accumulatedUserRemoved :=
    foldl (fun n pa => n + userLinesRemoved pa) 0 promptAttributions in
  let accumulatedUserAddedPerFile :=
    foldl (fun acc pa => addUserAddedPerFile acc (userAddedPerFile pa))
          ∅ promptAttributions in
  let t := foldl touchedStep
             {| totalAgentAndUserWork := 0; postCheckpointUserAdded := 0;
                postCheckpointUserRemoved := 0;
                postCheckpointUserRemovedPerFile := ∅ |} filesTouched in
  let nonAgentFiles := getAllChangedFiles baseFiles headFiles in
  let allUserEditsToNonAgentFiles := foldl (nonAgentStep filesTouched) 0 nonAgentFiles in
  let committedNonAgentSet :=
    filter (fun f => ¬ (f ∈ filesTouched)) nonAgentFiles in
  let '(accumulatedToAgentFiles, accumulatedToCommittedNonAgentFiles) :=
    map_fold (separateStep filesTouched committedNonAgentSet) (0, 0)
             accumulatedUserAddedPerFile in
  let totalAgentAdded := Z.max 0 (totalAgentAndUserWork t - accumulatedToAgentFiles) in
  let postToNonAgentFiles :=
    Z.max 0 (allUserEditsToNonAgentFiles - accumulatedToCommittedNonAgentFiles) in
  let relevantAccumulatedUser :=
    accumulatedToAgentFiles + accumulatedToCommittedNonAgentFiles in
  let totalUserAdded :=
    relevantAccumulatedUser + postCheckpointUserAdded t + postToNonAgentFiles in
  let totalUserRemoved := accumulatedUserRemoved + postCheckpointUserRemoved t in
  let userSelfModified :=
    estimateUserSelfModifications accumulatedUserAddedPerFile
                                  (postCheckpointUserRemovedPerFile t) in
  {| totalAgentAdded := totalAgentAdded; totalUserAdded := totalUserAdded;
     totalUserRemoved := totalUserRemoved; userSelfModified := userSelfModified |}.

(** [calculateAttributionWithAccumulated]; [now] is
    [new Date().toISOString()]. *)
Definition calculateAttributionWithAccumulated (now : string)
    (filesTouched : list string) (promptAttributions : list PromptAttribution)
  : option InitialAttribution :=
  if bool_decide (filesTouched = []) then None else
  Some (finalSplit now (userAndAgentTotals filesTouched promptAttributions)).
End Accumulated.

(** [obj[key] = value] for a number [value] on an object made by the
    literal [{}].  Every key becomes an own property but ['__proto__']: that
    key is the accessor of [Object.prototype], whose setter ignores a value
    that is neither an object nor [null], so the object is left as it is. *)
Definition objectSet (obj : gmap string Z) (key : string) (value : Z) : gmap string Z :=
  if decide (key = "__proto__") then obj else <[key := value]> obj.

(** [calculatePromptAttribution]; [None] for [lastCheckpointFiles] is
    [null].  [result.userAddedPerFile] is a plain object, written with
    [objectSet]. *)
Definition calculatePromptAttribution (baseFiles : gmap string string)
    (lastCheckpointFiles : option (gmap string string))
    (worktreeFiles : gmap string string) (checkpointNumber : Z) : PromptAttribution :=
  let result :=
    {| checkpointNumber := checkpointNumber; userLinesAdded := 0; userLinesRemoved := 0;
       agentLinesAdded := 0; agentLinesRemoved := 0; userAddedPerFile := ∅ |} in
  if bool_decide (size worktreeFiles = 0%nat) then result else
  let referenceFiles := default baseFiles lastCheckpointFiles in
  map_fold
    (fun filePath worktreeContent result =>
       let referenceContent := getOrEmpty referenceFiles filePath in
       let baseContent := getOrEmpty baseFiles filePath in
       let userAdded := diffAdded referenceContent worktreeContent in
       let userRemoved := diffRemoved referenceContent worktreeContent in
       let agentDelta :=
         match lastCheckpointFiles with
         | Some checkpointFiles =>
             let checkpointContent := getOrEmpty checkpointFiles filePath in
             (diffAdded baseContent checkpointContent,
              diffRemoved baseContent checkpointContent)
         | None => (0, 0)
         end in
       {| checkpointNumber := checkpointNumber;
          userLinesAdded := userLinesAdded result + userAdded;
          userLinesRemoved := userLinesRemoved result + userRemoved;
          agentLinesAdded := agentLinesAdded result + agentDelta.1;
          agentLinesRemoved := agentLinesRemoved result + agentDelta.2;
          userAddedPerFile :=
            if 0 <? userAdded
            then objectSet (userAddedPerFile result) filePath userAdded
            else userAddedPerFile result |})
    result worktreeFiles.

End Attribution.

(** ** Content-overlap detection *)

Module ContentOverlap.
Import JsString.

(** [Set.prototype.add] on a set kept in insertion order. *)
Definition setAdd (x : string) (s : list string) : list string :=
  if bool_decide (x ∈ s) then s else s ++ [x].

(** Body of the loop of [extractSignificantLines]. *)
Definition addIfSignificant (lines : list string) (line : string) : list string :=
  let trimmed := trim line in
  if (10 <=? String.length trimmed)%nat then setAdd trimmed lines else lines.

(** [extractSignificantLines] *)
Definition extractSignificantLines (content : string) : list string :=
  foldl addIfSignificant [] (split content).

(** The loop [for (const line of stagedLines)] with its early return. *)
Fixpoint matchLoop (shadowLines : list string) (requiredMatches matchCount : Z)
    (stagedLines : list string) : bool :=
  match stagedLines with
  | [] => false
  | line :: rest =>
      if bool_decide (line ∈ shadowLines) then
        if requiredMatches <=? matchCount + 1 then true
        else matchLoop shadowLines requiredMatches (matchCount + 1) rest
      else matchLoop shadowLines requiredMatches matchCount rest
  end.

(** [hasSignificantContentOverlap] *)
Definition hasSignificantContentOverlap (stagedContent shadowContent : string) : bool :=
  let shadowLines := extractSignificantLines shadowContent in
  let stagedLines := extractSignificantLines stagedContent in
  if (length shadowLines =? 0)%nat || (length stagedLines =? 0)%nat then false else
  let isVerySmallFile := (length shadowLines <? 2)%nat || (length stagedLines <? 2)%nat in
  let requiredMatches := if isVerySmallFile then 1 else 2 in
  matchLoop shadowLines requiredMatches 0 stagedLines.

(** Truthiness of a [string | null]. *)
Definition truthy (s : option string) : bool :=
  match s with
  | Some s => negb (String.eqb s EmptyString)
  | None => false
  end.

Section Git.
(** [gitSafe(args, { cwd })] of [git-operations], which is not part of
    the sources at hand: the output of the git command, or [null]
    ([None]) when it fails.  The repository does not change while
    [filesOverlapWithContent] runs. *)
Variable gitSafe : list string -> option string -> option string.

Variable shadowBranchName headCommitHash : string.
Variable parentCommitHash : option string.
Variable cwd : option string.

(** The guarded read [if (parentCommitHash) { parentContent = await
    gitSafe(['show', parent:path]) }]: [None] when the guard fails,
    otherwise what git answered. *)
Definition parentContentOf (filePath : string) : option (option string) :=
  match parentCommitHash with
  | Some parent =>
      if truthy (Some parent)
      then Some (gitSafe ["show"; parent ++ ":" ++ filePath] cwd)
      else None
  | None => None
  end.

(** Body of [for (const filePath of filesTouched)]: [Some b] is
    [return b], [None] is [continue]. *)
Definition overlapOfFile (filePath : string) : option bool :=
  match gitSafe ["show"; headCommitHash ++ ":" ++ filePath] cwd with
  | None =>
      match parentContentOf filePath with
      | Some (Some _) => Some true
      | _ => None
      end
  | Some headContent =>
      let isModified :=
        match parentContentOf filePath with
        | Some parentContent => bool_decide (parentContent ≠ None)
        | None => false
        end in
      if isModified then Some true else
      match gitSafe ["show"; "refs/heads/" ++ shadowBranchName ++ ":" ++ filePath] cwd with
      | None => None
      | Some shadowContent =>
          let headHash := gitSafe ["rev-parse"; headCommitHash ++ ":" ++ filePath] cwd in
          let shadowHash :=
            gitSafe ["rev-parse"; "refs/heads/" ++ shadowBranchName ++ ":" ++ filePath]
                    cwd in
          match headHash, shadowHash with
          | Some hh, Some sh =>
              if String.eqb (trim hh) (trim sh) then Some true
              else if truthy (Some headContent) && truthy (Some shadowContent)
                      && hasSignificantContentOverlap headContent shadowContent
              then Some true else None
          | _, _ =>
              if truthy (Some headContent) && truthy (Some shadowContent)
                 && hasSignificantContentOverlap headContent shadowContent
              then Some true else None
          end
      end
  end.

Fixpoint overlapLoop (files : list string) : bool :=
  match files with
  | [] => false
  | filePath :: rest =>
      match overlapOfFile filePath with
      | Some b => b
      | None => overlapLoop rest
      end
  end.

(** [filesOverlapWithContent] *)
Definition filesOverlapWithContent (filesTouched : list string) : bool :=
  if bool_decide (filesTouched = []) then false else overlapLoop filesTouched.
End Git.

End ContentOverlap.

(** ** Vocabulary of the specification *)

Module Vocabulary.
Import JsString.

(** The lines of a text: the text cut at every newline, where a terminal
    newline ends the last line instead of opening an empty one.  The empty
    text has no line. *)
Fixpoint linesOf (s : string) : list string :=
  match s with
  | EmptyString => []
  | String c rest =>
      if Ascii.eqb c newline then EmptyString :: linesOf rest
      else match linesOf rest with
           | [] => [String c EmptyString]
           | line :: lines => String c line :: lines
           end
  end.

(** The line lists of two texts as multisets, and the size of their
    intersection: each line counts as often as both texts have it. *)
Definition lineMultiset (s : string) : gmultiset string := list_to_set_disj (linesOf s).

Definition commonLines (old new : string) : nat :=
  size (lineMultiset old ∩ lineMultiset new).

(** Invariant of the loop over [newLines] in [diffLines]: after the lines
    [P] of the new text, [unchanged] is the size of [O ∩ P] and [matchedOld]
    holds its multiplicities. *)
Definition matched (O P : gmultiset string) (acc : Z * gmap string Z) : Prop :=
  acc.1 = Z.of_nat (size (O ∩ P)) /\
  forall x, Attribution.getOr0 acc.2 x = Z.of_nat (multiplicity x (O ∩ P)).

Definition sumZ (l : list Z) : Z := foldr Z.add 0 l.

(** Lines the human had added to [path] across the turns. *)
Definition addedAcrossTurns (promptAttributions : list Attribution.PromptAttribution)
    (path : string) : Z :=
  sumZ ((fun pa => Attribution.getOr0 (Attribution.userAddedPerFile pa) path)
          <$> promptAttributions).

(** Lines the human removed from [path] after the last checkpoint. *)
Definition removedAfterCheckpoint (shadowFiles headFiles : gmap string string)
    (path : string) : Z :=
  Attribution.diffRemoved (Attribution.getOrEmpty shadowFiles path)
                          (Attribution.getOrEmpty headFiles path).

(** The self-modification estimate in the words of the specification: the
    sum, over the files the agent touched, of the smaller of the lines the
    human removed from the file after the checkpoint and the lines the human
    had added to it across the turns. *)
Definition selfModifiedEstimate (shadowFiles headFiles : gmap string string)
    (filesTouched : list string)
    (promptAttributions : list Attribution.PromptAttribution) : Z :=
  sumZ ((fun path => Z.min (removedAfterCheckpoint shadowFiles headFiles path)
                           (addedAcrossTurns promptAttributions path))
          <$> remove_dups filesTouched).

(** The value the specification gives for [humanModified]: the estimate of
    modified lines less the self-modification estimate, floored at zero. *)
Definition humanModifiedLessSelfModified (t : Attribution.Totals) : Z :=
  Z.max 0 (Z.min (Attribution.totalUserAdded t) (Attribution.totalUserRemoved t)
           - Attribution.userSelfModified t).

(** A prompt attribution whose counts are counts: the two parts of it that
    [calculateAttributionWithAccumulated] reads are not negative. *)
Definition countsNonNegative (pa : Attribution.PromptAttribution) : Prop :=
  0 <= Attribution.userLinesRemoved pa /\
  map_Forall (fun _ added => 0 <= added) (Attribution.userAddedPerFile pa).

End Vocabulary.

Module OverlapSpec.
Import JsString.

(** The significant lines of a content: its distinct lines, trimmed, that
    are at least 10 characters long. *)
Definition significantLines (content : string) : gset string :=
  list_to_set (filter (fun line => (10 <= String.length line)%nat)
                      (trim <$> Vocabulary.linesOf content)).

(** Shared significant lines needed to call it an overlap: 2, or 1 when
    either side has fewer than 2 significant lines. *)
Definition requiredShared (a b : string) : nat :=
  if bool_decide (size (significantLines a) < 2)%nat
     || bool_decide (size (significantLines b) < 2)%nat
  then 1%nat else 2%nat.

End OverlapSpec.

(** ** Sample inputs used below *)

Module Samples.
Import StateMachine.

(** A clock that shows ["T0"], ["T1"], ... at the successive positions. *)
Definition sampleClock (i : nat) : string :=
  String "T" (String (ascii_of_nat (48 + i)) EmptyString).

Definition sampleState : StateMachineState :=
  {| sessionID := "s-1"; phase := ended; filesTouched := ["a.ts"];
     lastInteractionTime := None; endedAt := Some "yesterday" |}.

(** A handler whose [handleCondense] rejects with the string ["boom"] and
    touches nothing. *)
Definition failingCondense : ActionHandler :=
  {| handleCondense := fun s => (s, Some (ThrownValue "boom"));
     handleCondenseIfFilesTouched := fun s => (s, None);
     handleDiscardIfNoFiles := fun s => (s, None);
     handleWarnStaleSession := fun s => (s, None) |}.

Definition sampleResult : TransitionResult :=
  {| newPhase := active;
     actions := [UpdateLastInteraction; Condense; WarnStaleSession;
                 ClearEndedAt; UpdateLastInteraction] |}.

(** The text made of the given lines, each ended by a newline:
    [unlines ["a"; "b"]] is ["a\nb\n"]. *)
Definition unlines (lines : list string) : string :=
  String.concat EmptyString
    (map (fun line => line ++ String JsString.newline EmptyString) lines).

(** The scenario of the specification: the session starts on [a b c], the
    agent's last checkpoint adds [d], the human adds [e] before committing. *)
Definition scenarioBase : string := unlines ["a"; "b"; "c"].
Definition scenarioShadow : string := unlines ["a"; "b"; "c"; "d"].
Definition scenarioHead : string := unlines ["a"; "b"; "c"; "d"; "e"].

(** A turn in which the human added one line to [f.ts], after which the
    agent's checkpoint holds two new lines and the commit only one of them. *)
Definition humanTurn : Attribution.PromptAttribution :=
  {| Attribution.checkpointNumber := 1;
     Attribution.userLinesAdded := 1; Attribution.userLinesRemoved := 0;
     Attribution.agentLinesAdded := 0; Attribution.agentLinesRemoved := 0;
     Attribution.userAddedPerFile := {[ "f.ts" := 1 ]} |}.

(** A repository for [gitSafe]: the parent commit [p1] has [README.md] and
    [old.ts]; the commit [h1] has a rewritten [README.md] and a new file
    [new.ts]; the shadow branch has nothing. *)
Definition sampleGit (args : list string) (cwd : option string) : option string :=
  if bool_decide (args = ["show"; "p1:README.md"]) then Some "first version"
  else if bool_decide (args = ["show"; "p1:old.ts"]) then Some "export {}"
  else if bool_decide (args = ["show"; "h1:README.md"]) then Some "second version"
  else if bool_decide (args = ["show"; "h1:new.ts"]) then Some "let fresh = 1"
  else None.

(** Two contents that share boilerplate only. *)
Definition bracesOnly : string := unlines ["{"; "}"].

Definition selfModBase : gmap string string := ∅.
Definition selfModShadow : gmap string string := {[ "f.ts" := unlines ["x"; "y"] ]}.
Definition selfModHead : gmap string string := {[ "f.ts" := unlines ["x"] ]}.

End Samples.

(** ** Session helpers ([src/session/state-machine.ts]) *)

Module SessionHelpers.
Import StateMachine.

(** [STALE_SESSION_THRESHOLD_MS]: seven days, in milliseconds. *)
Definition STALE_SESSION_THRESHOLD_MS : Z := 7 * 24 * 60 * 60 * 1000.

Section Clock.
(** [new Date(s).getTime()]; [None] is [NaN], the time of an invalid date. *)
Variable getTime : string -> option Z.
(** [Date.now()] *)
Variable dateNow : Z.

(** [isStale]: [!lastInteractionTime] holds for [undefined] and for the
    empty string; a comparison with [NaN] is false. *)
Definition isStale (lastInteractionTime : option string) : bool :=
  match lastInteractionTime with
  | None => false
  | Some s =>
      if String.eqb s EmptyString then false
      else match getTime s with
           | Some t => STALE_SESSION_THRESHOLD_MS <? dateNow - t
           | None => false
           end
  end.
End Clock.

(** The object [normalizeAfterLoad] mutates: a session state as parsed
    from disk, every field possibly absent. *)
Record LoadedState := {
  loadedPhase : option string;
  checkpointTranscriptStart : option Z;
  condensedTranscriptLines : option Z;
  transcriptLinesAtStart : option Z;
  attributionBaseCommit : option string;
  baseCommit : option string;
}.

(** Truthiness of a [number | undefined] and of a [string | undefined]. *)
Definition truthyNumber (n : option Z) : bool :=
  match n with
  | Some n => negb (n =? 0)
  | None => false
  end.

Definition truthyString (s : option string) : bool :=
  match s with
  | Some s => negb (String.eqb s EmptyString)
  | None => false
  end.

(** [x && x > 0] for a [number | undefined]. *)
Definition positiveNumber (n : option Z) : bool :=
  truthyNumber n && match n with Some n => 0 <? n | None => false end.

(** [normalizeAfterLoad]: the object after the call. *)
Definition normalizeAfterLoad (state : LoadedState) : LoadedState :=
  let phase' := Some (phaseToString (phaseFromString (loadedPhase state))) in
  let start' :=
    if negb (truthyNumber (checkpointTranscriptStart state)) then
      if positiveNumber (condensedTranscriptLines state)
      then condensedTranscriptLines state
      else if positiveNumber (transcriptLinesAtStart state)
      then transcriptLinesAtStart state
      else checkpointTranscriptStart state
    else checkpointTranscriptStart state in
  let attribution' :=
    if negb (truthyString (attributionBaseCommit state)) && truthyString (baseCommit state)
    then baseCommit state
    else attributionBaseCommit state in
  {| loadedPhase := phase';
     checkpointTranscriptStart := start';
     condensedTranscriptLines := Some 0;
     transcriptLinesAtStart := Some 0;
     attributionBaseCommit := attribution';
     baseCommit := baseCommit state |}.



End SessionHelpers.

(** ** Further vocabulary *)

Module MoreVocabulary.
Import Attribution.

(** The entry [calculatePromptAttribution] records for a worktree file:
    its added lines, when there are some. *)
Definition addedEntry (referenceFiles : gmap string string) (filePath content : string)
  : option Z :=
  let added := diffAdded (getOrEmpty referenceFiles filePath) content in
  if 0 <? added then Some added else None.

(** Lines the last checkpoint adds to the touched files over the base,
    a file counted as often as it is listed. *)
Definition workInShadow (baseFiles shadowFiles : gmap string string)
    (filesTouched : list string) : Z :=
  Vocabulary.sumZ
    ((fun path => diffAdded (getOrEmpty baseFiles path) (getOrEmpty shadowFiles path))
       <$> filesTouched).

End MoreVocabulary.

(** ** More of content-overlap detection *)

Module ContentOverlapMore.
Import JsString ContentOverlap.

(** [hasOverlappingFiles]: [stagedFiles.some((f) => touchedSet.has(f))]. *)
Definition hasOverlappingFiles (stagedFiles filesTouched : list string) : bool :=
  existsb (fun f => bool_decide (f ∈ filesTouched)) stagedFiles.

(** [a && b && a.trim() === b.trim()] for two [string | null]. *)
Definition sameTruthyHash (a b : option string) : bool :=
  truthy a && truthy b &&
  match a, b with
  | Some a, Some b => String.eqb (trim a) (trim b)
  | _, _ => false
  end.

Section Git.
Variable gitSafe : list string -> option string -> option string.
Variable shadowBranchName : string.
Variable cwd : option string.

(** Body of the loop of [stagedFilesOverlapWithContent]: [Some b] is
    [return b], [None] is [continue]. *)
Definition stagedOverlapOfFile (filesTouched : list string) (stagedPath : string)
  : option bool :=
  if negb (bool_decide (stagedPath ∈ filesTouched)) then None else
  match gitSafe ["show"; "HEAD:" ++ stagedPath] cwd with
  | Some _ => Some true
  | None =>
      match gitSafe ["show"; "refs/heads/" ++ shadowBranchName ++ ":" ++ stagedPath] cwd with
      | None => None
      | Some shadowContent =>
          match gitSafe ["show"; ":" ++ stagedPath] cwd with
          | None => None
          | Some stagedContent =>
              let stagedHash := gitSafe ["rev-parse"; ":" ++ stagedPath] cwd in
              let shadowHash :=
                gitSafe ["rev-parse"; "refs/heads/" ++ shadowBranchName ++ ":" ++ stagedPath]
                        cwd in
              if sameTruthyHash stagedHash shadowHash then Some true
              else if hasSignificantContentOverlap stagedContent shadowContent
              then Some true else None
          end
      end
  end.

Fixpoint stagedLoop (filesTouched stagedFiles : list string) : bool :=
  match stagedFiles with
  | [] => false
  | stagedPath :: rest =>
      match stagedOverlapOfFile filesTouched stagedPath with
      | Some b => b
      | None => stagedLoop filesTouched rest
      end
  end.

(** [stagedFilesOverlapWithContent] *)
Definition stagedFilesOverlapWithContent (stagedFiles filesTouched : list string) : bool :=
  stagedLoop filesTouched stagedFiles.

Variable headCommitHash : string.

(** Body of the loop of [filesWithRemainingAgentChanges]: whether the file
    is pushed on [remaining]. *)
Definition remainsChanged (committedFiles : gset string) (filePath : string) : bool :=
  if negb (bool_decide (filePath ∈ committedFiles)) then true else
  let commitHash := gitSafe ["rev-parse"; headCommitHash ++ ":" ++ filePath] cwd in
  let shadowHash :=
    gitSafe ["rev-parse"; "refs/heads/" ++ shadowBranchName ++ ":" ++ filePath] cwd in
  match commitHash, shadowHash with
  | Some commitHash, Some shadowHash =>
      if String.eqb (trim commitHash) (trim shadowHash) then false
      else
        match gitSafe ["diff"; "--name-only"; "HEAD"; "--"; filePath] cwd with
        | Some workingDiff =>
            if String.eqb (trim workingDiff) EmptyString then false else true
        | None => true
        end
  | _, _ => false
  end.

(** [filesWithRemainingAgentChanges]; [remaining.push(filePath)] appends. *)
Definition filesWithRemainingAgentChanges (filesTouched : list string)
    (committedFiles : gset string) : list string :=
  foldl (fun remaining filePath =>
           if remainsChanged committedFiles filePath
           then (remaining ++ [filePath])%list else remaining)
        [] filesTouched.
End Git.

End ContentOverlapMore.

(** ** More of the string utilities ([src/utils/string-utils.ts]) *)

Module StringUtilsMore.
Import JsString.

(** [s.replace(/\s+/g, ' ')], scanning from the left; [inRun] tells that the
    previous code unit was white space, already replaced.  The class [\s]
    is the white space [trim] removes. *)
Fixpoint replaceRuns (inRun : bool) (s : string) : string :=
  match s with
  | EmptyString => EmptyString
  | String c rest =>
      if isWhiteSpace c
      then if inRun then replaceRuns true rest else String " " (replaceRuns true rest)
      else String c (replaceRuns false rest)
  end.

(** [collapseWhitespace] *)
Definition collapseWhitespace (s : string) : string := trim (replaceRuns false s).

(** [runes.slice(0, end)]: a negative [end] counts from the end of the
    array. *)
Definition sliceTo {A} (finish : Z) (l : list A) : list A :=
  let len := Z.of_nat (length l) in
  let final := if finish <? 0 then Z.max (len + finish) 0 else Z.min finish len in
  take (Z.to_nat final) l.

(** [truncateRunes]; [None] for [suffix] is the default ['...'].  With code
    units below 256 a rune ([...s]) is a code unit. *)
Definition truncateRunes (s : string) (maxRunes : Z) (suffix : option string) : string :=
  let suffix := default "..." suffix in
  let runes := list_ascii_of_string s in
  if Z.of_nat (length runes) <=? maxRunes then s
  else string_of_list_ascii (sliceTo maxRunes runes) ++ suffix.

(** A text in which white space only occurs as single spaces: [prevWs]
    tells that a white space code unit may not come next. *)
Fixpoint singleSpaces (prevWs : bool) (s : string) : bool :=
  match s with
  | EmptyString => true
  | String c rest =>
      if isWhiteSpace c
      then Ascii.eqb c " " && negb prevWs && singleSpaces true rest
      else singleSpaces false rest
  end.

Definition endsWithWhiteSpace (s : string) : bool :=
  match lastChar s with
  | Some c => isWhiteSpace c
  | None => false
  end.

(** Words separated by single spaces, with no white space at either end. *)
Definition collapsed (s : string) : bool :=
  singleSpaces true s && negb (endsWithWhiteSpace s).

End StringUtilsMore.

(** ** Message formatting ([src/strategy/types.ts]) *)

Module Messages.
Import ContentOverlap.

(** [parts.join(' - ')] *)
Definition joinParts (parts : list string) : string := String.concat " - " parts.

(** [formatSubagentEndMessage]; [None] is [undefined]. *)
Definition formatSubagentEndMessage (subagentType taskDescription : option string)
    (shortToolUseID : string) : string :=
  let parts :=
    match subagentType with
    | Some t => if truthy (Some t) then ["Task (" ++ t ++ ")"] else ["Task"]
    | None => ["Task"]
    end in
  let parts :=
    match taskDescription with
    | Some d =>
        if truthy (Some d) then
          let desc := if (50 <? String.length d)%nat
                      then String.substring 0 50 d ++ "..." else d in
          (parts ++ [desc])%list
        else parts
    | None => parts
    end in
  let last := "[" ++ shortToolUseID ++ "]" in
  joinParts (parts ++ [last])%list.

End Messages.

(** ** More sample inputs *)

Module MoreSamples.
Import Samples.

(** A repository for [gitSafe] in which the new file [new.ts] of the commit
    [h1] is the blob the shadow branch has, and the checked-out [HEAD] has
    [README.md]. *)
Definition blobGit (args : list string) (cwd : option string) : option string :=
  if bool_decide (args = ["show"; "h1:new.ts"]) then Some "let fresh = 1"
  else if bool_decide (args = ["show"; "refs/heads/entire/abc1234:new.ts"])
  then Some "let fresh = 1"
  else if bool_decide (args = ["rev-parse"; "h1:new.ts"]) then Some "9b1d4f0 "
  else if bool_decide (args = ["rev-parse"; "refs/heads/entire/abc1234:new.ts"])
  then Some "9b1d4f0"
  else if bool_decide (args = ["show"; "HEAD:README.md"]) then Some "first version"
  else None.

(** A session whose base has one line in [f.ts], to which the agent's
    checkpoint adds one. *)
Definition oneLineBase : gmap string string := {[ "f.ts" := unlines ["a"] ]}.
Definition twoLineShadow : gmap string string := {[ "f.ts" := unlines ["a"; "b"] ]}.

(** A stored prompt attribution with a negative count of removed lines. *)
Definition negativeTurn : Attribution.PromptAttribution :=
  {| Attribution.checkpointNumber := 1;
     Attribution.userLinesAdded := 0; Attribution.userLinesRemoved := -3;
     Attribution.agentLinesAdded := 0; Attribution.agentLinesRemoved := 0;
     Attribution.userAddedPerFile := ∅ |}.

(** A worktree whose only file has the path [__proto__], with two lines. *)
Definition protoWorktree : gmap string string := {[ "__proto__" := unlines ["a"; "b"] ]}.

End MoreSamples.

(* ===================================================================== *)
(** * Part II: properties                                                *)
(* ===================================================================== *)

(** ** The transition table *)

Section TransitionTable.
Import StateMachine.

(** C5. From [ended], a [GitCommit] outside a rebase keeps the phase
    [ended]; the actions are [CondenseIfFilesTouched, UpdateLastInteraction]
    when the context has files touched and
    [DiscardIfNoFiles, UpdateLastInteraction] when it has none. *)
Theorem transition_ended_GitCommit (ctx : TransitionContext) :
  isRebaseInProgress ctx = false ->
  transition "ended" GitCommit ctx =
    if hasFilesTouched ctx
    then {| newPhase := ended;
            actions := [CondenseIfFilesTouched; UpdateLastInteraction] |}
    else {| newPhase := ended;
            actions := [DiscardIfNoFiles; UpdateLastInteraction] |}.
Proof.
  intros Hrebase. unfold transition. cbn. rewrite Hrebase. reflexivity.
Qed.

Lemma transition_ended_GitCommit_witness :
  transition "ended" GitCommit {| hasFilesTouched := false; isRebaseInProgress := false |}
  = {| newPhase := ended; actions := [DiscardIfNoFiles; UpdateLastInteraction] |}.
Proof.
  exact (transition_ended_GitCommit
           {| hasFilesTouched := false; isRebaseInProgress := false |} eq_refl).
Defined.

(** C6. From [idle] and from [active], a [GitCommit] while a rebase is in
    progress leaves the phase as it is and asks for no action at all. *)
Theorem transition_GitCommit_during_rebase (p : Phase) (ctx : TransitionContext) :
  p = idle \/ p = active ->
  isRebaseInProgress ctx = true ->
  transition (phaseToString p) GitCommit ctx = {| newPhase := p; actions := [] |}.
Proof.
  intros [-> | ->] Hrebase; unfold transition; cbn; rewrite Hrebase; reflexivity.
Qed.

Lemma transition_GitCommit_during_rebase_witness :
  transition "active" GitCommit {| hasFilesTouched := true; isRebaseInProgress := true |}
  = {| newPhase := active; actions := [] |}.
Proof.
  exact (transition_GitCommit_during_rebase active
           {| hasFilesTouched := true; isRebaseInProgress := true |}
           (or_intror eq_refl) eq_refl).
Defined.

End TransitionTable.

(** ** The action harness *)

Section HarnessProperties.
Import StateMachine.
Variable now : nat -> string.
Variable h : ActionHandler.

Lemma loop_app (r : Run) (i : nat) (l1 l2 : list Action) :
  loop now h r i (l1 ++ l2) = loop now h (loop now h r i l1) (i + length l1) l2.
Proof.
  revert r i. induction l1 as [|a l1 IH]; intros r i; cbn [loop app length].
  - by rewrite Nat.add_0_r.
  - rewrite IH. f_equal. lia.
Qed.

(** Once an error is recorded, the rest of the loop performs the common
    field mutations only. *)
Lemma loop_after_error (r : Run) (e : Error) (i : nat) (acts : list Action) :
  handlerErr r = Some e ->
  loop now h r i acts =
    {| state := commonOnly now (state r) i acts;
       handlerErr := Some e; calls := calls r |}.
Proof.
  revert r i. induction acts as [|a acts IH]; intros r i He; cbn [loop commonOnly].
  - destruct r; cbn in *; by subst.
  - rewrite IH.
    + destruct a; cbn; unfold tryHandler; by rewrite ?He.
    + destruct a; cbn; unfold tryHandler; by rewrite ?He.
Qed.

Lemma step_handler_action (r : Run) (i : nat) (a : Action) (m : HandlerMethod) :
  handlerErr r = None -> handlerFor h a = Some m ->
  step now h r i a =
    {| state := (m (state r)).1;
       handlerErr := toError <$> (m (state r)).2;
       calls := calls r ++ [(a, state r)] |}.
Proof.
  intros He Hm. destruct a; cbn in Hm |- *; try discriminate;
    unfold tryHandler; rewrite He; injection Hm as <-;
    match goal with |- context [let '(_, _) := ?c in _] => by destruct c end.
Qed.

Lemma step_common_action (r : Run) (i : nat) (a : Action) :
  isHandlerAction a = false ->
  step now h r i a =
    {| state := applyCommon now (state r) i a;
       handlerErr := handlerErr r; calls := calls r |}.
Proof. by destruct a. Qed.

Lemma handlerFor_isHandlerAction (a : Action) :
  isHandlerAction a = true <-> is_Some (handlerFor h a).
Proof. destruct a; cbn; split; intros H; try done; by destruct H. Qed.


Lemma commonOnly_phase (s : StateMachineState) (i : nat) (acts : list Action) :
  phase (commonOnly now s i acts) = phase s.
Proof.
  revert s i. induction acts as [|a acts IH]; intros s i; cbn [commonOnly]; [done|].
  rewrite IH. by destruct a.
Qed.

Lemma commonOnly_endedAt (s : StateMachineState) (i : nat) (acts : list Action) :
  endedAt (commonOnly now s i acts) =
    if bool_decide (ClearEndedAt ∈ acts) then None else endedAt s.
Proof.
  revert s i. induction acts as [|a acts IH]; intros s i; cbn [commonOnly].
  - case_bool_decide as Hin; [by apply elem_of_nil in Hin | done].
  - rewrite IH. destruct (decide (a = ClearEndedAt)) as [->|Hne].
    + rewrite (bool_decide_eq_true_2 (_ ∈ _ :: _)) by left.
      by case_bool_decide.
    + assert (bool_decide (ClearEndedAt ∈ a :: acts) = bool_decide (ClearEndedAt ∈ acts)) as ->.
      { apply bool_decide_ext. rewrite elem_of_cons.
        split; [intros [Heq|Hin]; [congruence | done] | by right]. }
      by destruct a.
Qed.

Lemma commonOnly_lastInteractionTime (s : StateMachineState) (i : nat) (acts : list Action) :
  UpdateLastInteraction ∈ acts ->
  exists j, (i <= j < i + length acts)%nat /\
            acts !! (j - i)%nat = Some UpdateLastInteraction /\
            lastInteractionTime (commonOnly now s i acts) = Some (now j).
Proof.
  revert s i. induction acts as [|a acts IH]; intros s i Hin; [by apply elem_of_nil in Hin|].
  cbn [commonOnly length].
  destruct (decide (UpdateLastInteraction ∈ acts)) as [Hrest|Hrest].
  - destruct (IH (applyCommon now s i a) (S i) Hrest) as (j & Hj & Hat & Hlast).
    exists j. split; [lia|]. split; [|done].
    replace (j - i)%nat with (S (j - S i)) by lia. done.
  - apply elem_of_cons in Hin as [<-|Hin]; [|done].
    exists i. split; [lia|]. split; [by rewrite Nat.sub_diag|].
    clear IH. cbn [applyCommon].
    assert (forall s' k, lastInteractionTime (commonOnly now s' k acts)
                         = lastInteractionTime s') as Hkeep.
    { clear s i. induction acts as [|b acts IH]; intros s' k; cbn [commonOnly]; [done|].
      rewrite IH by (rewrite elem_of_cons in Hrest; naive_solver).
      destruct b; try done. exfalso. apply Hrest. left. }
    by rewrite Hkeep.
Qed.


Lemma applyCommon_harnessFields (s1 s2 : StateMachineState) (i : nat) (a : Action) :
  harnessFields s1 = harnessFields s2 ->
  harnessFields (applyCommon now s1 i a) = harnessFields (applyCommon now s2 i a).
Proof. unfold harnessFields. intros [= H1 H2 H3]. destruct a; cbn; congruence. Qed.

Lemma step_harnessFields (r : Run) (i : nat) (a : Action) :
  handlerKeepsHarnessFields h ->
  harnessFields (state (step now h r i a)) = harnessFields (applyCommon now (state r) i a).
Proof.
  intros Hkeep. destruct (isHandlerAction a) eqn:Ha.
  - destruct (handlerErr r) as [e|] eqn:He.
    + destruct a; cbn; unfold tryHandler; by rewrite ?He.
    + destruct (proj1 (handlerFor_isHandlerAction a) Ha) as [m Hm].
      rewrite (step_handler_action r i a m He Hm). cbn [state].
      destruct (Hkeep a m Hm (state r)) as (H1 & H2 & H3).
      unfold harnessFields. rewrite H1, H2, H3. by destruct a.
  - by rewrite step_common_action.
Qed.

Lemma loop_harnessFields (r : Run) (s0 : StateMachineState) (i : nat) (acts : list Action) :
  handlerKeepsHarnessFields h ->
  harnessFields (state r) = harnessFields s0 ->
  harnessFields (state (loop now h r i acts)) = harnessFields (commonOnly now s0 i acts).
Proof.
  intros Hkeep. revert r s0 i.
  induction acts as [|a acts IH]; intros r s0 i Heq; cbn [loop commonOnly]; [done|].
  apply IH. rewrite step_harnessFields by done. by apply applyCommon_harnessFields.
Qed.

Lemma loop_calls_phase (p : Phase) (r : Run) (i : nat) (acts : list Action) :
  handlerKeepsHarnessFields h ->
  phase (state r) = p ->
  (forall a st, (a, st) ∈ calls r -> phase st = p) ->
  forall a st, (a, st) ∈ calls (loop now h r i acts) -> phase st = p.
Proof.
  intros Hkeep. revert r i.
  induction acts as [|b acts IH]; intros r i Hp Hcalls; cbn [loop]; [done|].
  apply IH.
  - pose proof (step_harnessFields r i b Hkeep) as [= H1 _ _].
    rewrite H1. by destruct b.
  - intros a st. destruct (isHandlerAction b) eqn:Hb.
    + destruct (handlerErr r) as [e|] eqn:He.
      * assert (step now h r i b = r) as ->
        by (destruct b; cbn; unfold tryHandler; by rewrite ?He).
        apply Hcalls.
      * destruct (proj1 (handlerFor_isHandlerAction b) Hb) as [m Hm].
        rewrite (step_handler_action r i b m He Hm). cbn [calls].
        rewrite elem_of_app, list_elem_of_singleton.
        intros [Hin | [= -> ->]]; [by eapply Hcalls | done].
    + rewrite step_common_action by done. apply Hcalls.
Qed.

Lemma loop_calls_extend (r : Run) (i : nat) (acts : list Action) :
  exists more, calls (loop now h r i acts) = (calls r ++ more)%list.
Proof.
  revert r i. induction acts as [|a acts IH]; intros r i; cbn [loop].
  - exists []. by rewrite app_nil_r.
  - destruct (IH (step now h r i a) (S i)) as [more ->].
    destruct (isHandlerAction a) eqn:Ha.
    + destruct (handlerErr r) as [e|] eqn:He.
      * assert (step now h r i a = r) as ->
        by (destruct a; cbn; unfold tryHandler; by rewrite ?He).
        by exists more.
      * destruct (proj1 (handlerFor_isHandlerAction a) Ha) as [m Hm].
        rewrite (step_handler_action r i a m He Hm). cbn [calls].
        exists ((a, state r) :: more). by rewrite <-app_assoc.
    + rewrite step_common_action by done. by exists more.
Qed.

(** The first handler call, if there is one, is given the new phase: the
    harness has only performed field mutations before it. *)
Lemma loop_first_call (p : Phase) (r : Run) (i : nat) (acts : list Action) :
  calls r = [] -> phase (state r) = p ->
  forall a st rest, calls (loop now h r i acts) = (a, st) :: rest -> phase st = p.
Proof.
  revert r i. induction acts as [|b acts IH]; intros r i Hcalls Hp a st rest; cbn [loop].
  - by rewrite Hcalls.
  - destruct (isHandlerAction b) eqn:Hb.
    + destruct (handlerErr r) as [e|] eqn:He.
      * assert (step now h r i b = r) as ->
        by (destruct b; cbn; unfold tryHandler; by rewrite ?He).
        by apply IH.
      * destruct (proj1 (handlerFor_isHandlerAction b) Hb) as [m Hm].
        destruct (loop_calls_extend (step now h r i b) (S i) acts) as [more ->].
        rewrite (step_handler_action r i b m He Hm). cbn [calls]. rewrite Hcalls.
        by intros [= _ <- _].
    + apply IH.
      * by rewrite step_common_action.
      * rewrite step_common_action by done. cbn [state]. by destruct b.
Qed.

(** C10. The phase is assigned before the loop, and nothing the harness
    did is undone when a handler throws.  With any handler: the first
    handler call is given the new phase, and once the first throw has
    happened, the final state is the state the failing handler left, with
    the common field mutations found after it applied.  With a handler
    that does not itself write [phase], [lastInteractionTime] and
    [endedAt]: every handler call sees the new
    phase, and, whether or not an error is returned, these three fields
    end as if every [UpdateLastInteraction] and [ClearEndedAt] of the list
    had been applied to the state with the new phase. *)
Theorem applyTransition_no_rollback (s : StateMachineState) (r : TransitionResult) :
  let fin := applyTransition now h s r in
  (forall a st rest, calls fin = (a, st) :: rest -> phase st = newPhase r)
  /\
  (forall pre a post m s' t,
     actions r = (pre ++ a :: post)%list ->
     let mid := applyTransition now h s {| newPhase := newPhase r; actions := pre |} in
     handlerErr mid = None ->
     handlerFor h a = Some m ->
     m (state mid) = (s', Some t) ->
     handlerErr fin = Some (toError t) /\
     state fin = commonOnly now s' (S (length pre)) post /\
     phase (state fin) = phase s')
  /\
  (handlerKeepsHarnessFields h ->
     let expected := commonOnly now (set_phase (newPhase r) s) 0 (actions r) in
     (forall a st, (a, st) ∈ calls fin -> phase st = newPhase r) /\
     phase (state fin) = newPhase r /\
     lastInteractionTime (state fin) = lastInteractionTime expected /\
     endedAt (state fin) = endedAt expected /\
     (ClearEndedAt ∈ actions r -> endedAt (state fin) = None) /\
     (UpdateLastInteraction ∈ actions r ->
        exists j, actions r !! j = Some UpdateLastInteraction /\
                  lastInteractionTime (state fin) = Some (now j))).
Proof.
  cbn zeta. split; [|split].
  - unfold applyTransition. by apply loop_first_call.
  - intros pre a post m s' t Hsplit Hmid Hm Hthrow.
    unfold applyTransition in *. cbn [newPhase actions] in *.
    rewrite Hsplit, loop_app. cbn [loop].
    set (mid := loop now h _ 0 pre) in *.
    rewrite (step_handler_action mid _ a m Hmid Hm), Hthrow.
    cbn [fst snd fmap option_fmap option_map].
    rewrite (loop_after_error _ (toError t)) by done. cbn [state handlerErr].
    split; [done|]. split; [done|]. apply commonOnly_phase.
  - intros Hkeep. unfold applyTransition.
    set (s0 := set_phase (newPhase r) s).
    pose proof (loop_harnessFields
                  {| state := s0; handlerErr := None; calls := [] |} s0 0 (actions r)
                  Hkeep eq_refl) as [= Hphase Hlast Hended].
    split.
    { apply loop_calls_phase; [done | done |].
      intros a st Hin. by apply elem_of_nil in Hin. }
    rewrite Hphase, Hlast, Hended, commonOnly_phase.
    split; [done|]. split; [done|]. split; [done|]. split.
    + intros Hin. rewrite commonOnly_endedAt. by rewrite bool_decide_eq_true_2.
    + intros Hin.
      destruct (commonOnly_lastInteractionTime s0 0 (actions r) Hin)
        as (j & _ & Hat & Hl).
      exists j. by rewrite Nat.sub_0_r in Hat.
Qed.

End HarnessProperties.

Section HarnessWitnesses.
Import StateMachine Samples.


Lemma failingCondense_keeps : handlerKeepsHarnessFields failingCondense.
Proof.
  intros a m Hm s. destruct a; cbn in Hm; try discriminate;
    injection Hm as <-; cbn; repeat split.
Defined.

Lemma applyTransition_no_rollback_witness :
  let fin := applyTransition sampleClock failingCondense sampleState sampleResult in
  handlerErr fin = Some {| message := "boom" |} /\
  phase (state fin) = active /\
  endedAt (state fin) = None /\
  lastInteractionTime (state fin) = Some "T4" /\
  exists st, calls fin = [(Condense, st)] /\ phase st = active.
Proof.
  cbn zeta.
  destruct (applyTransition_no_rollback sampleClock failingCondense
              sampleState sampleResult) as (Hfirst & Hgeneral & Hkeeps).
  destruct (Hgeneral [UpdateLastInteraction] Condense
              [WarnStaleSession; ClearEndedAt; UpdateLastInteraction]
              (handleCondense failingCondense) _ _ eq_refl eq_refl eq_refl eq_refl)
    as (Herr & _ & _).
  destruct (Hkeeps failingCondense_keeps) as (_ & Hphase & Hlast & Hended & _ & _).
  split; [exact Herr|]. split; [exact Hphase|].
  split; [exact Hended|]. split; [exact Hlast|].
  eexists. split; [reflexivity|]. exact (Hfirst _ _ [] eq_refl).
Defined.

End HarnessWitnesses.

(** ** Lines of a text *)

Section Lines.
Import JsString StringUtils Attribution Vocabulary.

Lemma countNewlinesFrom_acc (n : Z) (s : string) :
  countNewlinesFrom n s = n + countNewlinesFrom 0 s.
Proof.
  revert n. induction s as [|c s IH]; intros n; cbn [countNewlinesFrom]; [lia|].
  rewrite IH, (IH (if Ascii.eqb c newline then 0 + 1 else 0)).
  destruct (Ascii.eqb c newline); lia.
Qed.

Lemma linesOf_nonempty (s : string) : s <> EmptyString -> linesOf s <> [].
Proof.
  destruct s as [|c s]; [done|]. intros _. cbn [linesOf].
  destruct (Ascii.eqb c newline); [done|]. by destruct (linesOf s).
Qed.

Lemma endsWithNewline_cons (c : ascii) (s : string) :
  s <> EmptyString -> endsWithNewline (String c s) = endsWithNewline s.
Proof. destruct s; [done|]. done. Qed.

(** [split] differs from [linesOf] by the empty piece that follows a
    terminal newline, and by the single empty piece of the empty text. *)
Lemma split_linesOf (s : string) :
  split s =
    if String.eqb s EmptyString || endsWithNewline s
    then (linesOf s ++ [EmptyString])%list else linesOf s.
Proof.
  induction s as [|c s IH]; [done|].
  cbn [split linesOf]. rewrite IH. clear IH.
  destruct s as [|c' s'].
  - cbn. unfold endsWithNewline. cbn. by destruct (Ascii.eqb c newline).
  - rewrite (endsWithNewline_cons c) by done.
    change (String.eqb (String c (String c' s')) EmptyString) with false.
    change (String.eqb (String c' s') EmptyString) with false. cbn [orb].
    pose proof (linesOf_nonempty (String c' s')) as Hne.
    destruct (Ascii.eqb c newline); [by destruct (endsWithNewline _)|].
    destruct (linesOf (String c' s')) as [|l ls]; [by destruct Hne|].
    by destruct (endsWithNewline _).
Qed.

Lemma splitLines_linesOf (s : string) : s <> EmptyString -> splitLines s = linesOf s.
Proof.
  intros Hne. unfold splitLines. rewrite split_linesOf.
  assert (String.eqb s EmptyString = false) as -> by (by apply String.eqb_neq).
  cbn [orb]. destruct (endsWithNewline s).
  - rewrite last_snoc, bool_decide_eq_true_2 by done. cbn [andb].
    apply List.removelast_last.
  - by rewrite andb_false_r.
Qed.

Lemma split_nonempty (s : string) : split s <> [].
Proof.
  destruct s as [|c s]; [done|]. cbn [split].
  destruct (Ascii.eqb c newline); [done|]. by destruct (split s).
Qed.

Lemma length_split (s : string) :
  Z.of_nat (length (split s)) = countNewlinesFrom 0 s + 1.
Proof.
  induction s as [|c s IH]; [done|].
  cbn [split countNewlinesFrom]. rewrite countNewlinesFrom_acc.
  destruct (Ascii.eqb c newline).
  - rewrite length_cons. lia.
  - pose proof (split_nonempty s) as Hne.
    destruct (split s) as [|l ls]; [done|]. rewrite !length_cons in *. lia.
Qed.

(** [countLines] counts the lines of the text. *)
Lemma countLines_linesOf (s : string) : countLines s = Z.of_nat (length (linesOf s)).
Proof.
  unfold countLines. destruct (String.eqb_spec s EmptyString) as [->|Hne]; [done|].
  pose proof (length_split s) as Hlen. rewrite split_linesOf in Hlen.
  assert (String.eqb s EmptyString = false) as Hs by (by apply String.eqb_neq).
  rewrite Hs in Hlen. cbn [orb] in Hlen.
  destruct (endsWithNewline s); cbn [negb].
  - rewrite length_app, length_cons, length_nil in Hlen. lia.
  - lia.
Qed.

End Lines.

(** ** [diffLines] is a multiset comparison *)

Section DiffLines.
Import JsString StringUtils Attribution Vocabulary.

Lemma getOr0_insert (m : gmap string Z) (k x : string) (v : Z) :
  getOr0 (<[k := v]> m) x = if decide (k = x) then v else getOr0 m x.
Proof. unfold getOr0. rewrite lookup_insert. by case_decide. Qed.

Lemma getOr0_empty (x : string) : getOr0 ∅ x = 0.
Proof. unfold getOr0. by rewrite lookup_empty. Qed.

Lemma countOccurrences_from (m : gmap string Z) (lines : list string) (x : string) :
  getOr0 (foldl (fun oldSet line => <[line := getOr0 oldSet line + 1]> oldSet) m lines) x
  = getOr0 m x + Z.of_nat (multiplicity x (list_to_set_disj lines : gmultiset string)).
Proof.
  revert m. induction lines as [|y lines IH]; intros m; cbn [foldl].
  - rewrite list_to_set_disj_nil, multiplicity_empty. lia.
  - rewrite IH, getOr0_insert, list_to_set_disj_cons, multiplicity_disj_union,
      multiplicity_singleton.
    repeat case_decide; subst; try done; lia.
Qed.

Lemma countOccurrences_multiplicity (lines : list string) (x : string) :
  getOr0 (countOccurrences lines) x
  = Z.of_nat (multiplicity x (list_to_set_disj lines : gmultiset string)).
Proof. unfold countOccurrences. by rewrite countOccurrences_from, getOr0_empty. Qed.

Lemma intersection_add_available (O P : gmultiset string) (y : string) :
  (multiplicity y P < multiplicity y O)%nat ->
  O ∩ (P ⊎ {[+ y +]}) = (O ∩ P) ⊎ {[+ y +]}.
Proof.
  intros Hlt. apply gmultiset_eq. intros x.
  rewrite multiplicity_disj_union, !multiplicity_intersection, multiplicity_disj_union,
    multiplicity_singleton.
  case_decide; subst; lia.
Qed.

Lemma intersection_add_exhausted (O P : gmultiset string) (y : string) :
  (multiplicity y O <= multiplicity y P)%nat ->
  O ∩ (P ⊎ {[+ y +]}) = O ∩ P.
Proof.
  intros Hle. apply gmultiset_eq. intros x.
  rewrite !multiplicity_intersection, multiplicity_disj_union, multiplicity_singleton.
  case_decide; subst; lia.
Qed.

Lemma matchLine_matched (oldSet : gmap string Z) (O P : gmultiset string)
    (acc : Z * gmap string Z) (y : string) :
  (forall x, getOr0 oldSet x = Z.of_nat (multiplicity x O)) ->
  matched O P acc -> matched O (P ⊎ {[+ y +]}) (matchLine oldSet acc y).
Proof.
  intros Hold [Hsize Hmult]. destruct acc as [unchanged matchedOld]. cbn [fst snd] in *.
  unfold matchLine. rewrite Hold, Hmult, multiplicity_intersection.
  destruct (Z.ltb_spec 0 (Z.of_nat (multiplicity y O)
                          - Z.of_nat (multiplicity y O `min` multiplicity y P))) as [Hav|Hav].
  - unfold matched. rewrite intersection_add_available by lia. split; cbn [fst snd].
    + rewrite gmultiset_size_disj_union, gmultiset_size_singleton. lia.
    + intros x. rewrite getOr0_insert, Hmult, multiplicity_disj_union,
        multiplicity_singleton, !multiplicity_intersection.
      repeat case_decide; subst; try done; lia.
  - unfold matched. rewrite intersection_add_exhausted by lia. by split.
Qed.

Lemma matchLoop_matched (oldSet : gmap string Z) (O P : gmultiset string)
    (acc : Z * gmap string Z) (lines : list string) :
  (forall x, getOr0 oldSet x = Z.of_nat (multiplicity x O)) ->
  matched O P acc ->
  matched O (P ⊎ list_to_set_disj lines) (foldl (matchLine oldSet) acc lines).
Proof.
  intros Hold. revert P acc. induction lines as [|y lines IH]; intros P acc Hacc; cbn [foldl].
  - by rewrite list_to_set_disj_nil, (right_id ∅ (⊎)).
  - rewrite list_to_set_disj_cons, (assoc (⊎)). apply IH. by apply matchLine_matched.
Qed.

(** What [diffLines] computes, in terms of the lines of the two texts. *)
Lemma diffLines_commonLines (old new : string) :
  diffLines old new =
    (Z.of_nat (commonLines old new),
     Z.of_nat (length (linesOf new)) - Z.of_nat (commonLines old new),
     Z.of_nat (length (linesOf old)) - Z.of_nat (commonLines old new)).
Proof.
  unfold diffLines, commonLines, lineMultiset.
  destruct (String.eqb_spec old new) as [->|Hneq].
  { rewrite (idemp_L (∩)), countLines_linesOf.
    assert (size (list_to_set_disj (linesOf new) : gmultiset string) = length (linesOf new))
      as ->; [|repeat f_equal; lia].
    generalize (linesOf new). intros l. induction l as [|x l IH].
    - by rewrite list_to_set_disj_nil, gmultiset_size_empty.
    - rewrite list_to_set_disj_cons, gmultiset_size_disj_union, gmultiset_size_singleton, IH.
      done. }
  destruct (String.eqb_spec old EmptyString) as [->|Hold].
  { cbn [linesOf]. rewrite list_to_set_disj_nil, (left_absorb_L ∅ (∩)), gmultiset_size_empty.
    rewrite countLines_linesOf. cbn. repeat f_equal; lia. }
  destruct (String.eqb_spec new EmptyString) as [->|Hnew].
  { cbn [linesOf]. rewrite list_to_set_disj_nil, (right_absorb_L ∅ (∩)), gmultiset_size_empty.
    rewrite countLines_linesOf. cbn. repeat f_equal; lia. }
  rewrite !splitLines_linesOf by done. cbn zeta.
  pose proof (matchLoop_matched (countOccurrences (linesOf old))
                (list_to_set_disj (linesOf old)) ∅ (0, ∅) (linesOf new)
                (countOccurrences_multiplicity (linesOf old))) as [Hsize _].
  { split; cbn [fst snd].
    - by rewrite (right_absorb_L ∅ (∩)), gmultiset_size_empty.
    - intros x. by rewrite getOr0_empty, (right_absorb_L ∅ (∩)), multiplicity_empty. }
  rewrite (left_id_L ∅ (⊎)) in Hsize. by rewrite Hsize.
Qed.

(** C4. [diffLines old new] is [(unchanged, added, removed)] where
    [unchanged] is the size of the multiset intersection of the two line
    lists, [added] is the number of lines of [new] less [unchanged], and
    [removed] the number of lines of [old] less [unchanged]; the number of
    lines of a text is [countLines].  In particular a text against itself is
    all unchanged, the empty text against a text is all added, and a text
    against the empty text is all removed.  The line list is the one the
    code builds ([split] on newline, then [pop] after a terminal newline)
    for every text but the empty one, which has no line. *)
Theorem diffLines_multiset :
  (forall old new,
     diffLines old new =
       (Z.of_nat (commonLines old new),
        Z.of_nat (length (linesOf new)) - Z.of_nat (commonLines old new),
        Z.of_nat (length (linesOf old)) - Z.of_nat (commonLines old new))) /\
  (forall s, linesOf s = if String.eqb s EmptyString then [] else splitLines s) /\
  (forall s, countLines s = Z.of_nat (length (linesOf s))) /\
  (forall s, diffLines s s = (countLines s, 0, 0)) /\
  (forall s, diffLines EmptyString s = (0, countLines s, 0)) /\
  (forall s, diffLines s EmptyString = (0, 0, countLines s)).
Proof.
  split; [exact diffLines_commonLines|].
  split.
  { intros s. destruct (String.eqb_spec s EmptyString) as [->|Hne]; [done|].
    by rewrite splitLines_linesOf. }
  split; [exact countLines_linesOf|].
  split; [|split].
  - intros s. unfold diffLines. by rewrite String.eqb_refl.
  - intros s. unfold diffLines. destruct (String.eqb_spec EmptyString s) as [<-|Hne]; done.
  - intros s. unfold diffLines. destruct (String.eqb_spec s EmptyString) as [->|Hne]; done.
Qed.

End DiffLines.

(** ** Line counts are not negative *)

Section Counts.
Import JsString StringUtils Attribution Vocabulary.

Lemma size_list_to_set_disj (l : list string) :
  size (list_to_set_disj l : gmultiset string) = length l.
Proof.
  induction l as [|x l IH].
  - by rewrite list_to_set_disj_nil, gmultiset_size_empty.
  - by rewrite list_to_set_disj_cons, gmultiset_size_disj_union, gmultiset_size_singleton, IH.
Qed.

Lemma commonLines_le_new (old new : string) :
  (commonLines old new <= length (linesOf new))%nat.
Proof.
  unfold commonLines, lineMultiset. rewrite <-(size_list_to_set_disj (linesOf new)).
  apply gmultiset_subseteq_size. multiset_solver.
Qed.

Lemma commonLines_le_old (old new : string) :
  (commonLines old new <= length (linesOf old))%nat.
Proof.
  unfold commonLines, lineMultiset. rewrite <-(size_list_to_set_disj (linesOf old)).
  apply gmultiset_subseteq_size. multiset_solver.
Qed.

Lemma diffAdded_nonneg (old new : string) : 0 <= diffAdded old new.
Proof.
  unfold diffAdded. rewrite diffLines_commonLines. cbn [fst snd].
  pose proof (commonLines_le_new old new). lia.
Qed.

Lemma diffRemoved_nonneg (old new : string) : 0 <= diffRemoved old new.
Proof.
  unfold diffRemoved. rewrite diffLines_commonLines. cbn [fst snd].
  pose proof (commonLines_le_old old new). lia.
Qed.

Lemma accumulatedUserRemoved_nonneg (n : Z) (pas : list PromptAttribution) :
  0 <= n -> Forall countsNonNegative pas ->
  0 <= foldl (fun n pa => n + userLinesRemoved pa) n pas.
Proof.
  intros Hn Hpas. revert n Hn.
  induction Hpas as [|pa pas [Hpa _] _ IH]; intros n Hn; cbn [foldl]; [done|].
  apply IH. lia.
Qed.

Lemma addUserAddedPerFile_nonneg (acc perFile : gmap string Z) :
  map_Forall (fun _ added => 0 <= added) acc ->
  map_Forall (fun _ added => 0 <= added) perFile ->
  map_Forall (fun _ added => 0 <= added) (addUserAddedPerFile acc perFile).
Proof.
  intros Hacc. unfold addUserAddedPerFile.
  apply (map_fold_weak_ind
           (fun r m => map_Forall (fun _ added => 0 <= added) m ->
                       map_Forall (fun _ added => 0 <= added) r)); [done|].
  intros filePath added m r Hfresh IH Hm.
  apply map_Forall_insert in Hm as [Hadded Hm]; [|done].
  specialize (IH Hm). apply map_Forall_insert_2; [|done].
  unfold getOr0. destruct (r !! filePath) as [v|] eqn:Hv; cbn; [|lia].
  specialize (IH _ _ Hv). cbn in IH. lia.
Qed.

Lemma accumulatedUserAddedPerFile_nonneg (acc : gmap string Z) (pas : list PromptAttribution) :
  map_Forall (fun _ added => 0 <= added) acc ->
  Forall countsNonNegative pas ->
  map_Forall (fun _ added => 0 <= added)
    (foldl (fun acc pa => addUserAddedPerFile acc (userAddedPerFile pa)) acc pas).
Proof.
  intros Hacc Hpas. revert acc Hacc.
  induction Hpas as [|pa pas [_ Hpa] _ IH]; intros acc Hacc; cbn [foldl]; [done|].
  apply IH. by apply addUserAddedPerFile_nonneg.
Qed.

Lemma touchedStep_nonneg (baseFiles shadowFiles headFiles : gmap string string)
    (t : TouchedTotals) (files : list string) :
  0 <= totalAgentAndUserWork t -> 0 <= postCheckpointUserAdded t ->
  0 <= postCheckpointUserRemoved t ->
  let t' := foldl (touchedStep baseFiles shadowFiles headFiles) t files in
  0 <= totalAgentAndUserWork t' /\ 0 <= postCheckpointUserAdded t' /\
  0 <= postCheckpointUserRemoved t'.
Proof.
  revert t. induction files as [|f files IH]; intros t H1 H2 H3; cbn [foldl]; [done|].
  apply IH; cbn.
  - pose proof (diffAdded_nonneg (getOrEmpty baseFiles f) (getOrEmpty shadowFiles f)). lia.
  - pose proof (diffAdded_nonneg (getOrEmpty shadowFiles f) (getOrEmpty headFiles f)). lia.
  - pose proof (diffRemoved_nonneg (getOrEmpty shadowFiles f) (getOrEmpty headFiles f)). lia.
Qed.

Lemma nonAgentStep_nonneg (baseFiles headFiles : gmap string string)
    (filesTouched : list string) (total : Z) (files : list string) :
  0 <= total -> 0 <= foldl (nonAgentStep baseFiles headFiles filesTouched) total files.
Proof.
  revert total. induction files as [|f files IH]; intros total Ht; cbn [foldl]; [done|].
  apply IH. unfold nonAgentStep. case_bool_decide; [done|].
  pose proof (diffAdded_nonneg (getOrEmpty baseFiles f) (getOrEmpty headFiles f)). lia.
Qed.

Lemma separateStep_nonneg (filesTouched committed : list string) (m : gmap string Z) :
  map_Forall (fun _ added => 0 <= added) m ->
  let acc := map_fold (separateStep filesTouched committed) (0, 0) m in
  0 <= acc.1 /\ 0 <= acc.2.
Proof.
  cbn zeta.
  apply (map_fold_weak_ind
           (fun r m => map_Forall (fun _ added => 0 <= added) m -> 0 <= r.1 /\ 0 <= r.2));
    [done|].
  intros filePath added m' r Hfresh IH Hm.
  apply map_Forall_insert in Hm as [Hadded Hm]; [|done].
  destruct (IH Hm) as [H1 H2]. unfold separateStep.
  repeat case_bool_decide; cbn [fst snd]; split; lia.
Qed.

(** Every prompt attribution the program builds has counts that are not
    negative: the premise of the attribution invariant holds for them. *)
Lemma calculatePromptAttribution_countsNonNegative
    (baseFiles : gmap string string) (lastCheckpointFiles : option (gmap string string))
    (worktreeFiles : gmap string string) (checkpointNumber : Z) :
  let pa := calculatePromptAttribution baseFiles lastCheckpointFiles worktreeFiles
              checkpointNumber in
  countsNonNegative pa /\
  0 <= userLinesAdded pa /\ 0 <= agentLinesAdded pa /\ 0 <= agentLinesRemoved pa.
Proof.
  cbn zeta. unfold calculatePromptAttribution, countsNonNegative.
  case_bool_decide as Hsize.
  { cbn. repeat split; try lia. apply map_Forall_empty. }
  match goal with |- context [map_fold ?f ?b worktreeFiles] =>
    apply (map_fold_weak_ind
             (fun (r : PromptAttribution) (_ : gmap string string) =>
                (0 <= userLinesRemoved r /\
                 map_Forall (fun _ added => 0 <= added) (userAddedPerFile r)) /\
                0 <= userLinesAdded r /\ 0 <= agentLinesAdded r /\ 0 <= agentLinesRemoved r)
             f b)
  end.
  { cbn. repeat split; try lia. apply map_Forall_empty. }
  intros filePath worktreeContent m r _ ((Hrem & Hper) & Hadd & Hagent & HagentRem).
  cbn [userLinesRemoved userAddedPerFile userLinesAdded agentLinesAdded agentLinesRemoved].
  set (reference := getOrEmpty (default baseFiles lastCheckpointFiles) filePath).
  pose proof (diffAdded_nonneg reference worktreeContent).
  pose proof (diffRemoved_nonneg reference worktreeContent).
  assert (0 <= (match lastCheckpointFiles with
                | Some checkpointFiles =>
                    (diffAdded (getOrEmpty baseFiles filePath)
                       (getOrEmpty checkpointFiles filePath),
                     diffRemoved (getOrEmpty baseFiles filePath)
                       (getOrEmpty checkpointFiles filePath))
                | None => (0, 0)
                end).1 /\
          0 <= (match lastCheckpointFiles with
                | Some checkpointFiles =>
                    (diffAdded (getOrEmpty baseFiles filePath)
                       (getOrEmpty checkpointFiles filePath),
                     diffRemoved (getOrEmpty baseFiles filePath)
                       (getOrEmpty checkpointFiles filePath))
                | None => (0, 0)
                end).2) as [Ha Hr].
  { destruct lastCheckpointFiles as [checkpointFiles|]; cbn [fst snd]; [|lia].
    split; [apply diffAdded_nonneg | apply diffRemoved_nonneg]. }
  repeat split; try lia.
  destruct (0 <? diffAdded reference worktreeContent); [|done].
  unfold objectSet. case_decide; [done|]. by apply map_Forall_insert_2.
Qed.

(** [getAllChangedFiles] lists each changed path once: the list is the
    [Set] of the source. *)
Lemma getAllChangedFiles_NoDup (tree1 tree2 : gmap string string) :
  NoDup (getAllChangedFiles tree1 tree2).
Proof.
  unfold getAllChangedFiles. apply list.NoDup_app. split; [|split].
  - eapply sublist_NoDup; [apply (NoDup_fst_map_to_list tree1)|].
    apply fmap_sublist, sublist_filter.
  - intros path Hin1 Hin2.
    apply list_elem_of_fmap in Hin1 as ([p h1] & -> & Hin1).
    apply list_elem_of_filter in Hin1 as [_ Hin1].
    apply elem_of_map_to_list in Hin1.
    apply list_elem_of_filter in Hin2 as [Hnone _]. cbn in Hnone. congruence.
  - apply list.NoDup_filter, NoDup_fst_map_to_list.
Qed.

Lemma getAllChangedFiles_elem (tree1 tree2 : gmap string string) (path : string) :
  path ∈ getAllChangedFiles tree1 tree2 <-> tree1 !! path <> tree2 !! path.
Proof.
  unfold getAllChangedFiles. rewrite elem_of_app, list_elem_of_fmap, list_elem_of_filter.
  split.
  - intros [([p h1] & -> & Hin) | [Hnone Hin]].
    + apply list_elem_of_filter in Hin as [Hne Hin]. apply elem_of_map_to_list in Hin.
      cbn in *. congruence.
    + apply list_elem_of_fmap in Hin as ([p h2] & -> & Hin).
      apply elem_of_map_to_list in Hin. cbn in *. congruence.
  - intros Hne. destruct (tree1 !! path) as [h1|] eqn:H1.
    + left. exists (path, h1). split; [done|].
      apply list_elem_of_filter. split; [cbn; congruence|]. by apply elem_of_map_to_list.
    + right. split; [done|]. destruct (tree2 !! path) as [h2|] eqn:H2; [|done].
      apply list_elem_of_fmap. exists (path, h2). split; [done|].
      by apply elem_of_map_to_list.
Qed.

End Counts.

(** ** The attribution invariant *)

Section AttributionBounds.
Import JsString StringUtils Attribution Vocabulary.

Lemma percentage_bounds (agent total : Z) :
  0 <= agent <= total -> 0 < total ->
  (0 <= inject_Z agent / inject_Z total * 100)%Q /\
  (inject_Z agent / inject_Z total * 100 <= 100)%Q.
Proof.
  intros [Hagent Hle] Htotal.
  assert (0 < inject_Z total)%Q as Hpos by (rewrite (Zlt_Qlt 0 total) in Htotal; exact Htotal).
  assert (0 <= inject_Z agent / inject_Z total)%Q as Hlow.
  { apply Qle_shift_div_l; [exact Hpos|]. rewrite Qmult_0_l.
    rewrite (Zle_Qle 0 agent) in Hagent. exact Hagent. }
  assert (inject_Z agent / inject_Z total <= 1)%Q as Hhigh.
  { apply Qle_shift_div_r; [exact Hpos|]. rewrite Qmult_1_l.
    rewrite (Zle_Qle agent total) in Hle. exact Hle. }
  split.
  - apply Qmult_le_0_compat; [exact Hlow | done].
  - apply Qle_trans with (1 * 100)%Q; [|done].
    apply Qmult_le_compat_r; [exact Hhigh | done].
Qed.

Lemma userAndAgentTotals_nonneg (baseFiles shadowFiles headFiles : gmap string string)
    (filesTouched : list string) (promptAttributions : list PromptAttribution) :
  Forall countsNonNegative promptAttributions ->
  let t := userAndAgentTotals baseFiles shadowFiles headFiles filesTouched
             promptAttributions in
  0 <= totalAgentAdded t /\ 0 <= totalUserAdded t /\ 0 <= totalUserRemoved t.
Proof.
  intros Hpas. unfold userAndAgentTotals.
  pose proof (accumulatedUserRemoved_nonneg 0 promptAttributions (Z.le_refl 0) Hpas) as HaccRem.
  pose proof (accumulatedUserAddedPerFile_nonneg ∅ promptAttributions
                (map_Forall_empty _) Hpas) as HaccAdd.
  pose proof (touchedStep_nonneg baseFiles shadowFiles headFiles
                {| totalAgentAndUserWork := 0; postCheckpointUserAdded := 0;
                   postCheckpointUserRemoved := 0;
                   postCheckpointUserRemovedPerFile := ∅ |} filesTouched
                (Z.le_refl 0) (Z.le_refl 0) (Z.le_refl 0)) as (_ & HpostAdd & HpostRem).
  pose proof (separateStep_nonneg filesTouched
                (filter (fun f => ¬ f ∈ filesTouched) (getAllChangedFiles baseFiles headFiles))
                _ HaccAdd) as [HtoAgent HtoNon].
  cbn zeta in HpostAdd, HpostRem, HtoAgent, HtoNon |- *.
  destruct (map_fold _ (0, 0) _) as [toAgent toNon]. cbn [fst snd] in HtoAgent, HtoNon.
  cbn [totalAgentAdded totalUserAdded totalUserRemoved]. lia.
Qed.

Lemma finalSplit_bounds (now : string) (t : Totals) :
  let ia := finalSplit now t in
  (0 <= agentPercentage ia)%Q /\ (agentPercentage ia <= 100)%Q /\
  0 <= agentLines ia /\ 0 <= humanAdded ia /\ 0 <= humanRemoved ia /\
  0 <= totalCommitted ia /\
  (0 <= totalUserAdded t -> 0 <= totalUserRemoved t -> 0 <= humanModified ia).
Proof.
  destruct t as [agentAdded userAdded userRemoved selfMod].
  unfold finalSplit.
  cbn [totalAgentAdded totalUserAdded totalUserRemoved userSelfModified
       agentPercentage agentLines humanAdded humanModified humanRemoved totalCommitted].
  set (modified := Z.min userAdded userRemoved).
  set (committed0 := agentAdded + (userAdded - modified) - (userRemoved - modified)).
  set (committed := if committed0 <=? 0 then Z.max 0 agentAdded else committed0).
  set (agentInCommit :=
         Z.max 0 (agentAdded - (userRemoved - modified) - Z.max 0 (modified - selfMod))).
  assert (0 <= committed) as Hcommitted.
  { unfold committed. destruct (Z.leb_spec committed0 0); lia. }
  assert (0 <= agentInCommit <= committed) as Hin.
  { unfold agentInCommit, committed.
    destruct (Z.leb_spec committed0 0); unfold committed0, modified in *; lia. }
  repeat split; try (unfold modified; lia).
  - destruct (Z.ltb_spec 0 committed); [by apply percentage_bounds | done].
  - destruct (Z.ltb_spec 0 committed); [by apply percentage_bounds | done].
Qed.

(** C1. For a non-empty [filesTouched], any three file maps and any prompt
    attributions, [calculateAttributionWithAccumulated] returns an
    attribution with [0 <= agentPercentage <= 100] and with [agentLines],
    [humanAdded], [humanRemoved] and [totalCommitted] not negative;
    [humanModified] is not negative when the counts of the prompt
    attributions ([userLinesRemoved], the values of [userAddedPerFile]) are
    not negative. *)
Theorem attribution_bounds (baseFiles shadowFiles headFiles : gmap string string)
    (now : string) (filesTouched : list string) (promptAttributions : list PromptAttribution) :
  filesTouched <> [] ->
  exists ia,
    calculateAttributionWithAccumulated baseFiles shadowFiles headFiles now
      filesTouched promptAttributions = Some ia /\
    (0 <= agentPercentage ia)%Q /\ (agentPercentage ia <= 100)%Q /\
    0 <= agentLines ia /\ 0 <= humanAdded ia /\ 0 <= humanRemoved ia /\
    0 <= totalCommitted ia /\
    (Forall countsNonNegative promptAttributions -> 0 <= humanModified ia).
Proof.
  intros Hne. unfold calculateAttributionWithAccumulated.
  rewrite bool_decide_eq_false_2 by done.
  eexists. split; [reflexivity|].
  destruct (finalSplit_bounds now
              (userAndAgentTotals baseFiles shadowFiles headFiles filesTouched
                 promptAttributions)) as (H1 & H2 & H3 & H4 & H5 & H6 & H7).
  repeat (split; [assumption|]).
  intros Hpas.
  destruct (userAndAgentTotals_nonneg baseFiles shadowFiles headFiles filesTouched
              promptAttributions Hpas) as (_ & Hadded & Hremoved).
  by apply H7.
Qed.

End AttributionBounds.

Section AttributionWitnesses.
Import JsString StringUtils Attribution Vocabulary Samples MoreSamples.

Lemma humanTurn_countsNonNegative : Forall countsNonNegative [humanTurn].
Proof.
  constructor; [|constructor].
  split; [cbn; lia|]. cbn. apply map_Forall_singleton. lia.
Defined.

Lemma attribution_bounds_witness :
  exists ia,
    calculateAttributionWithAccumulated selfModBase selfModShadow selfModHead "now"
      ["f.ts"] [humanTurn] = Some ia /\
    (0 <= agentPercentage ia)%Q /\ (agentPercentage ia <= 100)%Q /\
    0 <= agentLines ia /\ 0 <= humanAdded ia /\ 0 <= humanModified ia /\
    0 <= humanRemoved ia /\ 0 <= totalCommitted ia.
Proof.
  destruct (attribution_bounds selfModBase selfModShadow selfModHead "now" ["f.ts"]
              [humanTurn]) as (ia & Hia & H1 & H2 & H3 & H4 & H5 & H6 & H7);
    [discriminate|].
  exists ia. repeat (split; [assumption|]).
  split; [exact (H7 humanTurn_countsNonNegative)|]. split; assumption.
Defined.

(** C1, as the specification has it, fails for [humanModified]: nothing
    keeps the counts of a prompt attribution from being negative, and with
    [userLinesRemoved = -3] in the only prompt attribution of a commit that
    is the checkpoint, [totalUserRemoved] is [-3], so the returned
    [humanModified] is [min(0, -3) = -3]. *)
Lemma attribution_bounds_negative_count :
  userLinesRemoved negativeTurn = -3 /\
  exists ia,
    calculateAttributionWithAccumulated oneLineBase twoLineShadow twoLineShadow "now"
      ["f.ts"] [negativeTurn] = Some ia /\
    humanModified ia = -3 /\ humanAdded ia = 3 /\ humanRemoved ia = 0 /\
    agentLines ia = 1 /\ totalCommitted ia = 4 /\
    ~ 0 <= humanModified ia.
Proof.
  split; [reflexivity|].
  eexists. split; [vm_compute; reflexivity|].
  repeat (split; [reflexivity|]). vm_compute. by intros H.
Qed.

End AttributionWitnesses.

(** ** The self-modification estimate *)

Section SelfModified.
Import JsString StringUtils Attribution Vocabulary.

Lemma sumZ_Permutation (l k : list Z) : l ≡ₚ k -> sumZ l = sumZ k.
Proof.
  unfold sumZ. induction 1 as [|x l k _ IH|x y l|l k j _ IH1 _ IH2]; cbn [foldr]; lia.
Qed.

Lemma sumZ_nonneg (l : list Z) : Forall (fun x => 0 <= x) l -> 0 <= sumZ l.
Proof. unfold sumZ. induction 1; cbn [foldr]; lia. Qed.

Lemma addUserAddedPerFile_lookup (acc perFile : gmap string Z) (path : string) :
  getOr0 (addUserAddedPerFile acc perFile) path = getOr0 acc path + getOr0 perFile path.
Proof.
  unfold addUserAddedPerFile.
  apply (map_fold_weak_ind (fun r m => getOr0 r path = getOr0 acc path + getOr0 m path)).
  - rewrite getOr0_empty. lia.
  - intros filePath added m r Hfresh IH. rewrite !getOr0_insert.
    case_decide as Heq; [|done]. subst filePath.
    assert (getOr0 m path = 0) by (unfold getOr0; by rewrite Hfresh). lia.
Qed.

Lemma accumulated_lookup (acc : gmap string Z) (pas : list PromptAttribution) (path : string) :
  getOr0 (foldl (fun acc pa => addUserAddedPerFile acc (userAddedPerFile pa)) acc pas) path
  = getOr0 acc path + addedAcrossTurns pas path.
Proof.
  unfold addedAcrossTurns, sumZ. revert acc.
  induction pas as [|pa pas IH]; intros acc; cbn [foldl fmap list_fmap foldr]; [lia|].
  rewrite IH, addUserAddedPerFile_lookup. lia.
Qed.

Lemma addedAcrossTurns_nonneg (pas : list PromptAttribution) (path : string) :
  Forall countsNonNegative pas -> 0 <= addedAcrossTurns pas path.
Proof.
  intros Hpas. apply sumZ_nonneg. apply Forall_fmap.
  induction Hpas as [|pa pas [_ Hper] _ IH]; constructor; [|done]. cbn.
  unfold getOr0. destruct (userAddedPerFile pa !! path) as [v|] eqn:Hv; cbn; [|lia].
  exact (Hper _ _ Hv).
Qed.

(** The per-file map the loop over [filesTouched] fills: a touched file
    with lines removed after the checkpoint is bound to their number. *)
Lemma removedPerFile_lookup (baseFiles shadowFiles headFiles : gmap string string)
    (t : TouchedTotals) (files : list string) (path : string) :
  postCheckpointUserRemovedPerFile
    (foldl (touchedStep baseFiles shadowFiles headFiles) t files) !! path
  = if bool_decide (path ∈ files /\ 0 < removedAfterCheckpoint shadowFiles headFiles path)
    then Some (removedAfterCheckpoint shadowFiles headFiles path)
    else postCheckpointUserRemovedPerFile t !! path.
Proof.
  revert t. induction files as [|f files IH]; intros t; cbn [foldl].
  - rewrite bool_decide_eq_false_2; [done|]. intros [Hin _]. by apply elem_of_nil in Hin.
  - rewrite IH. cbn [touchedStep postCheckpointUserRemovedPerFile].
    fold (removedAfterCheckpoint shadowFiles headFiles f).
    destruct (decide (path ∈ files /\ 0 < removedAfterCheckpoint shadowFiles headFiles path))
      as [[Hin Hpos]|Hno].
    + rewrite !bool_decide_eq_true_2; [done | split; [by right | done] | done].
    + rewrite (bool_decide_eq_false_2 _ Hno).
      destruct (Z.ltb_spec 0 (removedAfterCheckpoint shadowFiles headFiles f)) as [Hpos|Hle].
      * destruct (decide (f = path)) as [->|Hne].
        -- rewrite lookup_insert_eq.
           rewrite bool_decide_eq_true_2; [done | split; [by left | done]].
        -- rewrite lookup_insert_ne by done.
           rewrite bool_decide_eq_false_2; [done|].
           intros [Hin Hp]. apply elem_of_cons in Hin as [->|Hin]; [done|]. by apply Hno.
      * rewrite bool_decide_eq_false_2; [done|].
        intros [Hin Hp]. apply elem_of_cons in Hin as [->|Hin]; [lia|]. by apply Hno.
Qed.

Lemma estimateUserSelfModifications_sum (added removed : gmap string Z) :
  estimateUserSelfModifications added removed
  = sumZ ((fun kv => Z.min kv.2 (getOr0 added kv.1)) <$> map_to_list removed).
Proof.
  unfold estimateUserSelfModifications, sumZ. rewrite map_fold_foldr.
  induction (map_to_list removed) as [|[k v] l IH]; cbn [foldr fmap list_fmap]; [done|].
  rewrite <-IH. cbn. lia.
Qed.

(** The estimate the code computes is the sum the specification words. *)
Lemma userSelfModified_estimate (baseFiles shadowFiles headFiles : gmap string string)
    (filesTouched : list string) (promptAttributions : list PromptAttribution) :
  Forall countsNonNegative promptAttributions ->
  userSelfModified (userAndAgentTotals baseFiles shadowFiles headFiles filesTouched
                      promptAttributions)
  = selfModifiedEstimate shadowFiles headFiles filesTouched promptAttributions.
Proof.
  intros Hpas. unfold userAndAgentTotals. cbv zeta.
  destruct (map_fold _ (0, 0) _) as [toAgent toNon]. cbn [userSelfModified].
  rewrite estimateUserSelfModifications_sum. unfold selfModifiedEstimate.
  set (removedPerFile := postCheckpointUserRemovedPerFile (foldl _ _ filesTouched)).
  set (term := fun path => Z.min (removedAfterCheckpoint shadowFiles headFiles path)
                                 (addedAcrossTurns promptAttributions path)).
  assert (forall path v, removedPerFile !! path = Some v <->
            (path ∈ filesTouched /\ 0 < removedAfterCheckpoint shadowFiles headFiles path)
            /\ v = removedAfterCheckpoint shadowFiles headFiles path) as Hlookup.
  { intros path v. unfold removedPerFile. rewrite removedPerFile_lookup.
    cbn [postCheckpointUserRemovedPerFile]. rewrite lookup_empty.
    case_bool_decide as Hc; split; try done.
    - by intros [= <-].
    - by intros [_ ->].
    - by intros [Hc' _]. }
  (* each binding contributes the term of its file *)
  assert ((fun kv : string * Z => Z.min kv.2
             (getOr0 (foldl (fun acc pa => addUserAddedPerFile acc (userAddedPerFile pa))
                            ∅ promptAttributions) kv.1)) <$> map_to_list removedPerFile
          = term <$> (map_to_list removedPerFile).*1) as ->.
  { rewrite <-list_fmap_compose. apply list_fmap_ext. intros i [k v] Hin. cbn.
    apply list_elem_of_lookup_2, elem_of_map_to_list, Hlookup in Hin as [_ ->].
    unfold term. by rewrite accumulated_lookup, getOr0_empty, Z.add_0_l. }
  (* the files bound are the touched files with removed lines *)
  assert ((map_to_list removedPerFile).*1
          ≡ₚ filter (fun path => 0 < removedAfterCheckpoint shadowFiles headFiles path)
                    (remove_dups filesTouched)) as Hperm.
  { apply NoDup_Permutation.
    - apply NoDup_fst_map_to_list.
    - apply list.NoDup_filter, NoDup_remove_dups.
    - intros path. rewrite list_elem_of_filter, elem_of_remove_dups, list_elem_of_fmap.
      split.
      + intros ([k v] & -> & Hin). apply elem_of_map_to_list, Hlookup in Hin as [[? ?] _].
        done.
      + intros [Hpos Hin].
        exists (path, removedAfterCheckpoint shadowFiles headFiles path). split; [done|].
        apply elem_of_map_to_list, Hlookup. done. }
  rewrite (sumZ_Permutation _ _ (fmap_Permutation term _ _ Hperm)). clear Hperm Hlookup.
  (* the files without removed lines contribute nothing *)
  generalize (remove_dups filesTouched). intros files. unfold sumZ.
  induction files as [|f files IH]; [done|].
  cbn [fmap list_fmap foldr]. rewrite <-IH.
  destruct (decide (0 < removedAfterCheckpoint shadowFiles headFiles f)) as [Hpos|Hzero].
  - by rewrite filter_cons_True.
  - rewrite filter_cons_False by done.
    pose proof (diffRemoved_nonneg (getOrEmpty shadowFiles f) (getOrEmpty headFiles f)).
    pose proof (addedAcrossTurns_nonneg promptAttributions f Hpas).
    unfold term, removedAfterCheckpoint in *. lia.
Qed.

End SelfModified.

(** ** The final split *)

Section FinalSplit.
Import JsString StringUtils Attribution Vocabulary Samples.

(** C2, as the code has it.  The returned [humanModified] is
    [min(totalUserAdded, totalUserRemoved)] itself.  The self-modification
    estimate is subtracted from it, with one floor at zero, only in what is
    deducted from the agent's lines.  That estimate is the sum over the
    touched files of the smaller of the lines removed from the file after
    the checkpoint and the lines the human had added to it across turns
    (for prompt attributions whose counts are not negative). *)
Theorem humanModified_is_min (baseFiles shadowFiles headFiles : gmap string string)
    (now : string) (filesTouched : list string) (promptAttributions : list PromptAttribution) :
  filesTouched <> [] ->
  let t := userAndAgentTotals baseFiles shadowFiles headFiles filesTouched
             promptAttributions in
  exists ia,
    calculateAttributionWithAccumulated baseFiles shadowFiles headFiles now
      filesTouched promptAttributions = Some ia /\
    humanModified ia = Z.min (totalUserAdded t) (totalUserRemoved t) /\
    agentLines ia =
      Z.max 0 (totalAgentAdded t - humanRemoved ia - humanModifiedLessSelfModified t) /\
    (Forall countsNonNegative promptAttributions ->
     userSelfModified t
     = selfModifiedEstimate shadowFiles headFiles filesTouched promptAttributions).
Proof.
  intros Hne t. unfold calculateAttributionWithAccumulated.
  rewrite bool_decide_eq_false_2 by done.
  eexists. split; [reflexivity|]. fold t.
  split; [by destruct t|]. split; [by destruct t|].
  apply userSelfModified_estimate.
Qed.

Lemma humanModified_is_min_witness :
  exists ia,
    calculateAttributionWithAccumulated selfModBase selfModShadow selfModHead "now"
      ["f.ts"] [humanTurn] = Some ia /\
    humanModified ia = 1 /\ agentLines ia = 1 /\
    selfModifiedEstimate selfModShadow selfModHead ["f.ts"] [humanTurn] = 1.
Proof.
  destruct (humanModified_is_min selfModBase selfModShadow selfModHead "now"
              ["f.ts"] [humanTurn]) as (ia & Hia & Hmod & Hagent & Hself); [discriminate|].
  exists ia. split; [exact Hia|]. split; [|split].
  - rewrite Hmod. vm_compute. reflexivity.
  - rewrite Hagent.
    injection Hia as <-. vm_compute. reflexivity.
  - rewrite <-(Hself humanTurn_countsNonNegative). vm_compute. reflexivity.
Defined.

(** C2, as the specification has it, fails: the human added one line to
    [f.ts] in an earlier turn and one line of [f.ts] is gone after the last
    checkpoint, so both totals are 1 and the self-modification estimate is
    [min(1, 1) = 1]; the specification's value is [1 - 1 = 0], the returned
    [humanModified] is 1. *)
Lemma humanModified_not_less_selfModified :
  let t := userAndAgentTotals selfModBase selfModShadow selfModHead ["f.ts"] [humanTurn] in
  diffRemoved (getOrEmpty selfModShadow "f.ts") (getOrEmpty selfModHead "f.ts") = 1 /\
  getOr0 (userAddedPerFile humanTurn) "f.ts" = 1 /\
  selfModifiedEstimate selfModShadow selfModHead ["f.ts"] [humanTurn] = 1 /\
  totalUserAdded t = 1 /\ totalUserRemoved t = 1 /\ userSelfModified t = 1 /\
  humanModifiedLessSelfModified t = 0 /\
  exists ia,
    calculateAttributionWithAccumulated selfModBase selfModShadow selfModHead "now"
      ["f.ts"] [humanTurn] = Some ia /\
    humanModified ia = 1 /\
    humanModified ia <> humanModifiedLessSelfModified t.
Proof.
  cbn zeta. repeat (split; [vm_compute; reflexivity|]).
  eexists. split; [vm_compute; reflexivity|]. split; [reflexivity|].
  vm_compute. discriminate.
Qed.

(** C3. The scenario of the specification, for a file of any name: one
    agent line, one human line, half of the commit is the agent's. *)
Theorem scenario_agent_then_human (path now : string) :
  exists ia,
    calculateAttributionWithAccumulated
      {[ path := scenarioBase ]} {[ path := scenarioShadow ]} {[ path := scenarioHead ]}
      now [path] [] = Some ia /\
    agentLines ia = 1 /\ humanAdded ia = 1 /\ (agentPercentage ia == 50)%Q.
Proof.
  unfold calculateAttributionWithAccumulated. rewrite bool_decide_eq_false_2 by done.
  eexists. split; [reflexivity|].
  assert (userAndAgentTotals {[ path := scenarioBase ]} {[ path := scenarioShadow ]}
            {[ path := scenarioHead ]} [path] []
          = {| totalAgentAdded := 1; totalUserAdded := 1; totalUserRemoved := 0;
               userSelfModified := 0 |}) as ->.
  { unfold userAndAgentTotals. cbv zeta. cbn [foldl]. rewrite map_fold_empty.
    unfold touchedStep, getOrEmpty. rewrite !lookup_singleton_eq. cbn [default from_option id].
    change (diffAdded scenarioBase scenarioShadow) with 1.
    change (diffAdded scenarioShadow scenarioHead) with 1.
    change (diffRemoved scenarioShadow scenarioHead) with 0.
    cbn [totalAgentAndUserWork postCheckpointUserAdded postCheckpointUserRemoved
         postCheckpointUserRemovedPerFile Z.ltb Z.compare].
    unfold estimateUserSelfModifications. rewrite map_fold_empty.
    unfold getAllChangedFiles. rewrite !map_to_list_singleton.
    rewrite filter_cons_True by (cbn; rewrite lookup_singleton_eq; discriminate).
    cbn [fmap list_fmap fst].
    rewrite filter_cons_False by (rewrite lookup_singleton_eq; discriminate).
    rewrite !filter_nil. cbn [fmap list_fmap fst app foldl]. unfold nonAgentStep.
    rewrite bool_decide_eq_true_2 by (apply list_elem_of_singleton; reflexivity).
    reflexivity. }
  split; [reflexivity|]. split; [reflexivity|]. reflexivity.
Qed.

End FinalSplit.

(** ** Significant content overlap *)

Section SignificantOverlap.
Import JsString Vocabulary ContentOverlap OverlapSpec Samples.

Lemma setAdd_NoDup (x : string) (l : list string) : NoDup l -> NoDup (setAdd x l).
Proof.
  intros Hl. unfold setAdd. case_bool_decide as Hin; [done|].
  apply list.NoDup_app. split; [done|]. split.
  - intros y Hy Hy'. apply list_elem_of_singleton in Hy' as ->. done.
  - apply NoDup_singleton.
Qed.

Lemma setAdd_to_set (x : string) (l : list string) :
  list_to_set (setAdd x l) =@{gset string} {[ x ]} ∪ list_to_set l.
Proof.
  unfold setAdd. case_bool_decide as Hin.
  - apply set_eq. intros y. rewrite elem_of_union, elem_of_singleton, !elem_of_list_to_set.
    split; [by right|]. by intros [->|?].
  - rewrite list_to_set_app_L. cbn. set_solver.
Qed.

(** The set the loop of [extractSignificantLines] builds from the pieces
    [lines], started on [acc]. *)
Lemma extract_from (acc lines : list string) :
  NoDup acc ->
  NoDup (foldl addIfSignificant acc lines) /\
  list_to_set (foldl addIfSignificant acc lines) =@{gset string}
    list_to_set acc ∪
    list_to_set (filter (fun line => (10 <= String.length line)%nat) (trim <$> lines)).
Proof.
  revert acc. induction lines as [|l lines IH]; intros acc Hacc; cbn [foldl].
  - split; [done|]. cbn. set_solver.
  - unfold addIfSignificant at 2 4. cbn zeta.
    destruct (Nat.leb_spec 10 (String.length (trim l))) as [Hlen|Hlen].
    + destruct (IH (setAdd (trim l) acc) (setAdd_NoDup _ _ Hacc)) as [Hnd ->].
      split; [done|]. rewrite setAdd_to_set, fmap_cons, filter_cons_True by done.
      cbn [list_to_set]. set_solver.
    + destruct (IH acc Hacc) as [Hnd ->]. split; [done|].
      rewrite fmap_cons, filter_cons_False by lia. done.
Qed.

Lemma significant_split (content : string) :
  list_to_set (filter (fun line => (10 <= String.length line)%nat) (trim <$> split content))
  =@{gset string} significantLines content.
Proof.
  unfold significantLines. rewrite split_linesOf.
  destruct (_ || _); [|done].
  rewrite fmap_app, list.filter_app. cbn [fmap list_fmap].
  rewrite (filter_cons_False _ (trim EmptyString)) by (cbn; lia).
  by rewrite filter_nil, app_nil_r.
Qed.

Lemma extractSignificantLines_spec (content : string) :
  NoDup (extractSignificantLines content) /\
  list_to_set (extractSignificantLines content) =@{gset string} significantLines content.
Proof.
  destruct (extract_from [] (split content) (NoDup_nil_2)) as [Hnd Hset].
  split; [exact Hnd|]. unfold extractSignificantLines. rewrite Hset, significant_split.
  cbn. set_solver.
Qed.

Lemma length_extractSignificantLines (content : string) :
  length (extractSignificantLines content) = size (significantLines content).
Proof.
  destruct (extractSignificantLines_spec content) as [Hnd <-].
  by rewrite size_list_to_set.
Qed.

Lemma shared_count (shadowLines stagedLines : list string) :
  NoDup stagedLines ->
  length (filter (fun line => line ∈ shadowLines) stagedLines)
  = size ((list_to_set stagedLines : gset string) ∩ list_to_set shadowLines).
Proof.
  intros Hnd.
  rewrite <-(size_list_to_set (C:=gset string)) by (by apply list.NoDup_filter).
  f_equal. apply set_eq. intros x.
  rewrite elem_of_intersection, !elem_of_list_to_set, list_elem_of_filter. tauto.
Qed.

(** The loop returns as soon as the count reaches [requiredMatches]: it
    answers whether the number of matches in the whole list reaches it. *)
Lemma matchLoop_count (shadowLines : list string) (requiredMatches matchCount : Z)
    (stagedLines : list string) :
  matchCount < requiredMatches ->
  matchLoop shadowLines requiredMatches matchCount stagedLines
  = bool_decide (requiredMatches <=
                 matchCount
                 + Z.of_nat (length (filter (fun line => line ∈ shadowLines) stagedLines))).
Proof.
  revert matchCount. induction stagedLines as [|l rest IH]; intros matchCount Hlt;
    cbn [matchLoop].
  - rewrite filter_nil. cbn. rewrite bool_decide_eq_false_2; [done | lia].
  - case_bool_decide as Hin.
    + rewrite filter_cons_True by done. rewrite length_cons.
      destruct (Z.leb_spec requiredMatches (matchCount + 1)) as [Hle|Hgt].
      * rewrite bool_decide_eq_true_2; [done | lia].
      * rewrite IH by lia. apply bool_decide_ext. lia.
    + rewrite filter_cons_False by done. by apply IH.
Qed.

(** C9. [hasSignificantContentOverlap a b] holds exactly when the two
    contents share at least 2 distinct significant lines (trimmed lines of
    at least 10 characters), or at least 1 when either of them has fewer
    than 2 significant lines.  Two contents that are both ["{\n}\n"] have no
    significant line and do not overlap. *)
Theorem hasSignificantContentOverlap_shared_lines :
  (forall a b,
     hasSignificantContentOverlap a b
     = bool_decide (requiredShared a b
                    <= size (significantLines a ∩ significantLines b))%nat) /\
  hasSignificantContentOverlap bracesOnly bracesOnly = false /\
  significantLines bracesOnly = ∅.
Proof.
  split; [|split; [by vm_compute | by vm_compute]].
  intros a b. unfold hasSignificantContentOverlap, requiredShared.
  destruct (extractSignificantLines_spec a) as [Hnda Hseta].
  destruct (extractSignificantLines_spec b) as [Hndb Hsetb].
  pose proof (length_extractSignificantLines a) as Hla.
  pose proof (length_extractSignificantLines b) as Hlb.
  rewrite <-Hla, <-Hlb, <-Hseta, <-Hsetb.
  rewrite <-(shared_count (extractSignificantLines b) (extractSignificantLines a) Hnda).
  set (sa := extractSignificantLines a) in *. set (sb := extractSignificantLines b) in *.
  assert (length (filter (fun line => line ∈ sb) sa) <= length sa)%nat as Hfa
    by apply length_filter.
  assert (length sb = 0%nat -> length (filter (fun line => line ∈ sb) sa) = 0%nat) as Hfb.
  { intros Hsb. apply nil_length_inv in Hsb. rewrite Hsb.
    clear. induction sa as [|x sa IH]; [done|].
    rewrite filter_cons_False by apply not_elem_of_nil. exact IH. }
  destruct (Nat.eqb_spec (length sb) 0) as [Hb0|Hb0]; cbn [orb].
  { rewrite (Hfb Hb0). symmetry. apply bool_decide_eq_false_2.
    repeat case_bool_decide; cbn [orb]; lia. }
  destruct (Nat.eqb_spec (length sa) 0) as [Ha0|Ha0]; cbn [orb].
  { symmetry. apply bool_decide_eq_false_2.
    repeat case_bool_decide; cbn [orb]; lia. }
  destruct (Nat.ltb_spec (length sb) 2) as [Hb2|Hb2];
    destruct (Nat.ltb_spec (length sa) 2) as [Ha2|Ha2]; cbn [orb];
    rewrite matchLoop_count by lia;
    repeat case_bool_decide; cbn [orb] in *; try done; lia.
Qed.

End SignificantOverlap.

(** ** Files that overlap with the committed content *)

Section FilesOverlap.
Import JsString ContentOverlap.
Variable gitSafe : list string -> option string -> option string.
Variables shadowBranchName headCommitHash : string.
Variable parentCommitHash : option string.
Variable cwd : option string.

(** No iteration of the loop returns [false]: a file either settles the
    answer as [true] or is passed over. *)
Lemma overlapOfFile_only_true (filePath : string) (b : bool) :
  overlapOfFile gitSafe shadowBranchName headCommitHash parentCommitHash cwd filePath = Some b ->
  b = true.
Proof.
  unfold overlapOfFile.
  repeat (case_match; try discriminate); by intros [= <-].
Qed.

Lemma parentContentOf_present (parent filePath content : string) :
  parentCommitHash = Some parent -> parent <> EmptyString ->
  gitSafe ["show"; parent ++ ":" ++ filePath] cwd = Some content ->
  parentContentOf gitSafe parentCommitHash cwd filePath = Some (Some content).
Proof.
  intros -> Hne Hshow. unfold parentContentOf, truthy.
  apply String.eqb_neq in Hne. by rewrite Hne, Hshow.
Qed.

(** A file that the parent commit has settles the answer, whether or not
    [HEAD] still has it. *)
Lemma overlapOfFile_in_parent (parent filePath content : string) :
  parentCommitHash = Some parent -> parent <> EmptyString ->
  gitSafe ["show"; parent ++ ":" ++ filePath] cwd = Some content ->
  overlapOfFile gitSafe shadowBranchName headCommitHash parentCommitHash cwd filePath
  = Some true.
Proof.
  intros Hparent Hne Hshow. unfold overlapOfFile.
  rewrite (parentContentOf_present parent filePath content Hparent Hne Hshow).
  destruct (gitSafe ["show"; headCommitHash ++ ":" ++ filePath] cwd); [|done].
  by rewrite bool_decide_eq_true_2.
Qed.

Lemma overlapLoop_in_parent (parent filePath content : string) (files : list string) :
  parentCommitHash = Some parent -> parent <> EmptyString ->
  filePath ∈ files ->
  gitSafe ["show"; parent ++ ":" ++ filePath] cwd = Some content ->
  overlapLoop gitSafe shadowBranchName headCommitHash parentCommitHash cwd files = true.
Proof.
  intros Hparent Hne Hin Hshow.
  induction files as [|f files IH]; [by apply elem_of_nil in Hin|].
  cbn [overlapLoop].
  destruct (overlapOfFile _ _ _ _ _ f) as [b|] eqn:Hf.
  - by apply overlapOfFile_only_true in Hf.
  - apply elem_of_cons in Hin as [->|Hin]; [|by apply IH].
    rewrite (overlapOfFile_in_parent parent f content Hparent Hne Hshow) in Hf. discriminate.
Qed.

End FilesOverlap.

Section FilesOverlapWithParent.
Import JsString ContentOverlap.

(** C8. With a parent commit, [filesOverlapWithContent] returns [true] as
    soon as one entry of [filesTouched] names a path the parent commit has,
    whatever [HEAD] and the shadow branch hold for it and for the other
    entries. *)
Theorem filesOverlapWithContent_file_in_parent
    (gitSafe : list string -> option string -> option string)
    (shadowBranchName headCommitHash : string) (cwd : option string)
    (parent filePath : string) (filesTouched : list string) :
  parent <> EmptyString ->
  filePath ∈ filesTouched ->
  gitSafe ["show"; parent ++ ":" ++ filePath] cwd <> None ->
  filesOverlapWithContent gitSafe shadowBranchName headCommitHash (Some parent) cwd
    filesTouched = true.
Proof.
  intros Hne Hin Hshow. unfold filesOverlapWithContent.
  case_bool_decide as Hnil; [subst; by apply elem_of_nil in Hin|].
  destruct (gitSafe ["show"; parent ++ ":" ++ filePath] cwd) as [content|] eqn:Hcontent;
    [|done].
  by apply (overlapLoop_in_parent gitSafe shadowBranchName headCommitHash (Some parent) cwd
              parent filePath content).
Qed.

End FilesOverlapWithParent.

Section FilesOverlapWitness.
Import JsString ContentOverlap Samples.

(** In the sample repository [README.md] is in the parent and was rewritten
    in [HEAD], and [old.ts] is in the parent and gone from [HEAD]; either
    one, after a file the parent does not have, makes the answer [true]. *)
Lemma filesOverlapWithContent_file_in_parent_witness :
  filesOverlapWithContent sampleGit "entire/abc1234" "h1" (Some "p1") None
    ["new.ts"; "README.md"] = true /\
  filesOverlapWithContent sampleGit "entire/abc1234" "h1" (Some "p1") None
    ["new.ts"; "old.ts"] = true.
Proof.
  split.
  - apply (filesOverlapWithContent_file_in_parent sampleGit "entire/abc1234" "h1" None
             "p1" "README.md"); [discriminate | right; left | discriminate].
  - apply (filesOverlapWithContent_file_in_parent sampleGit "entire/abc1234" "h1" None
             "p1" "old.ts"); [discriminate | right; left | discriminate].
Defined.

End FilesOverlapWitness.

(** ** The definitions on small inputs *)

Section SmallInputs.
Import StateMachine JsString StringUtils Attribution Vocabulary ContentOverlap OverlapSpec Samples.

Example phaseFromString_legacy :
  phaseFromString (Some "active_committed") = active /\
  phaseFromString (Some "paused") = idle /\ phaseFromString None = idle.
Proof. by vm_compute. Qed.

Example transition_from_legacy_phase :
  transition "active_committed" TurnEnd
    {| hasFilesTouched := false; isRebaseInProgress := false |}
  = {| newPhase := idle; actions := [UpdateLastInteraction] |}.
Proof. reflexivity. Qed.

Example split_terminal_newline :
  split (unlines ["a"; "b"]) = ["a"; "b"; EmptyString] /\
  splitLines (unlines ["a"; "b"]) = ["a"; "b"] /\
  linesOf (unlines ["a"; "b"]) = ["a"; "b"].
Proof. by vm_compute. Qed.

(** The one text on which [splitLines] and [linesOf] differ; [diffLines]
    never splits it, it returns [countLines] of the other text. *)
Example lines_of_empty_text :
  splitLines EmptyString = [EmptyString] /\ linesOf EmptyString = [] /\
  countLines EmptyString = 0 /\
  diffLines EmptyString (unlines [EmptyString]) = (0, 1, 0).
Proof. by vm_compute. Qed.

Example diffLines_is_not_positional :
  diffLines (unlines ["a"; "b"]) (unlines ["b"; "a"]) = (2, 0, 0) /\
  diffLines (unlines ["a"; "a"; "b"]) (unlines ["a"; "c"; "a"; "a"]) = (2, 2, 1).
Proof. by vm_compute. Qed.

Example countLines_without_terminal_newline :
  countLines "a" = 1 /\ countLines (unlines ["a"] ++ "b") = 2 /\
  countLines (unlines ["a"; EmptyString]) = 2.
Proof. by vm_compute. Qed.

Example trim_both_ends :
  trim (String "009" "  let total = 0;  " ++ String "013" EmptyString) = "let total = 0;".
Proof. by vm_compute. Qed.

Example overlap_small_file_one_line :
  hasSignificantContentOverlap (unlines ["  export const a = 1;"; "}"])
                               (unlines ["export const a = 1;"; "{"]) = true.
Proof. by vm_compute. Qed.

Example overlap_needs_two_lines :
  hasSignificantContentOverlap
    (unlines ["export const a = 1;"; "export const b = 2;"])
    (unlines ["export const a = 1;"; "export const c = 3;"]) = false /\
  hasSignificantContentOverlap
    (unlines ["export const a = 1;"; "export const b = 2;"; "export const d = 4;"])
    (unlines ["export const b = 2;"; "export const c = 3;"; "export const a = 1;"]) = true.
Proof. by vm_compute. Qed.

(** A new file, absent from the parent and from the shadow branch, is no
    overlap; without a parent commit nothing counts as modified. *)
Example filesOverlapWithContent_new_file :
  filesOverlapWithContent sampleGit "entire/abc1234" "h1" (Some "p1") None ["new.ts"] = false /\
  filesOverlapWithContent sampleGit "entire/abc1234" "h1" None None ["README.md"] = false.
Proof. by vm_compute. Qed.

Example sample_texts :
  scenarioBase
  = String "a" (String newline (String "b" (String newline (String "c"
      (String newline EmptyString))))) /\
  linesOf scenarioShadow = ["a"; "b"; "c"; "d"] /\
  linesOf scenarioHead = ["a"; "b"; "c"; "d"; "e"] /\
  bracesOnly = String "{" (String newline (String "}" (String newline EmptyString))).
Proof. by vm_compute. Qed.

End SmallInputs.

(* ===================================================================== *)
(** * Part III: further properties of the code                          *)
(* ===================================================================== *)

(** ** The transition table as a whole *)

Section TransitionTableMore.
Import StateMachine SessionHelpers.

(** X1. Normalising a phase twice is normalising it once, and [transition]
    only sees the normalised phase: a legacy or unknown phase string behaves
    as the phase it normalises to. *)
Theorem transition_normalises_phase (current : string) (event : StateMachineEvent)
    (ctx : TransitionContext) :
  phaseFromString (Some (phaseToString (phaseFromString (Some current))))
  = phaseFromString (Some current) /\
  transition current event ctx
  = transition (phaseToString (phaseFromString (Some current))) event ctx.
Proof.
  assert (forall p, phaseFromString (Some (phaseToString p)) = p) as Hround
    by (intros []; reflexivity).
  split; [apply Hround|]. unfold transition. by rewrite Hround.
Qed.

(** X2. The next phase does not depend on the context: [TurnStart] always
    leads to [active] and [SessionStop] to [ended]; [TurnEnd] leaves [active]
    for [idle]; [SessionStart] leaves [ended] for [idle]; [GitCommit] and
    [Compaction] never change the phase. *)
Theorem transition_newPhase (current : string) (event : StateMachineEvent)
    (ctx : TransitionContext) :
  let p := phaseFromString (Some current) in
  newPhase (transition current event ctx) =
    match event with
    | TurnStart => active
    | SessionStop => ended
    | TurnEnd => if decide (p = active) then idle else p
    | SessionStart => if decide (p = ended) then idle else p
    | GitCommit | Compaction => p
    end.
Proof.
  cbn zeta. unfold transition.
  destruct (phaseFromString (Some current)), event, ctx as [[] []]; reflexivity.
Qed.

(** X3. While a rebase is in progress a [GitCommit] asks for nothing, from
    every phase, [ended] and legacy phase strings included. *)
Theorem transition_GitCommit_rebase_any_phase (current : string) (ctx : TransitionContext) :
  isRebaseInProgress ctx = true ->
  transition current GitCommit ctx
  = {| newPhase := phaseFromString (Some current); actions := [] |}.
Proof.
  intros Hrebase. unfold transition.
  destruct (phaseFromString (Some current)); cbn; by rewrite Hrebase.
Qed.

Lemma transition_GitCommit_rebase_any_phase_witness :
  transition "ended" GitCommit {| hasFilesTouched := true; isRebaseInProgress := true |}
  = {| newPhase := ended; actions := [] |}.
Proof.
  exact (transition_GitCommit_rebase_any_phase "ended"
           {| hasFilesTouched := true; isRebaseInProgress := true |} eq_refl).
Defined.

(** X4. Which transitions ask for which handler-backed action: [Condense]
    only a [GitCommit] outside a rebase in a phase other than [ended];
    [DiscardIfNoFiles] only a [GitCommit] outside a rebase in [ended] with no
    files touched; [WarnStaleSession] only a [SessionStart] in [active];
    [ClearEndedAt] only a [TurnStart] or [SessionStart] in [ended]. *)
Theorem transition_action_origins (current : string) (event : StateMachineEvent)
    (ctx : TransitionContext) :
  let p := phaseFromString (Some current) in
  let acts := actions (transition current event ctx) in
  (Condense ∈ acts <->
     event = GitCommit /\ isRebaseInProgress ctx = false /\ p <> ended) /\
  (DiscardIfNoFiles ∈ acts <->
     event = GitCommit /\ isRebaseInProgress ctx = false /\ p = ended /\
     hasFilesTouched ctx = false) /\
  (WarnStaleSession ∈ acts <-> event = SessionStart /\ p = active) /\
  (ClearEndedAt ∈ acts <-> (event = TurnStart \/ event = SessionStart) /\ p = ended).
Proof.
  cbn zeta. unfold transition.
  destruct (phaseFromString (Some current)), event, ctx as [[] []]; cbn;
    rewrite ?elem_of_cons, ?elem_of_nil; repeat split; intros; try done;
    intuition congruence.
Qed.

End TransitionTableMore.

(** ** More on the action harness *)

Section HarnessMore.
Import StateMachine SessionHelpers.
Variable now : nat -> string.
Variable h : ActionHandler.


Lemma loop_commonOnly (r : Run) (i : nat) (acts : list Action) :
  Forall (fun a => isHandlerAction a = false) acts ->
  loop now h r i acts =
    {| state := commonOnly now (state r) i acts;
       handlerErr := handlerErr r; calls := calls r |}.
Proof.
  intros Hacts. revert r i.
  induction Hacts as [|a acts Ha _ IH]; intros r i; cbn [loop commonOnly].
  - by destruct r.
  - rewrite IH, (step_common_action now h r i a Ha). done.
Qed.

(** X5. A transition result without handler-backed action cannot fail: no
    handler method is called, no error is returned, and the state is the
    given one with the new phase and the field mutations of the list. *)
Theorem applyTransition_without_handler_action
    (s : StateMachineState) (r : TransitionResult) :
  Forall (fun a => isHandlerAction a = false) (actions r) ->
  applyTransition now h s r =
    {| state := commonOnly now (set_phase (newPhase r) s) 0 (actions r);
       handlerErr := None; calls := [] |}.
Proof. intros Hacts. unfold applyTransition. by rewrite loop_commonOnly. Qed.



(** X7. A result of [transition] holds at most one handler-backed action,
    so [applyTransition] never skips one: it calls the handler for exactly
    the handler-backed actions of the result, at most once. *)
Theorem applyTransition_of_transition_calls (s : StateMachineState) (current : string)
    (event : StateMachineEvent) (ctx : TransitionContext) :
  let r := transition current event ctx in
  let fin := applyTransition now h s r in
  (calls fin).*1 = filter (fun a => isHandlerAction a = true) (actions r) /\
  (length (calls fin) <= 1)%nat.
Proof.
  cbn zeta. unfold transition, applyTransition.
  destruct (phaseFromString (Some current)), event, ctx as [[] []];
    cbn; unfold tryHandler; cbn;
    repeat match goal with
           | |- context [let '(_, _) := ?c in _] => destruct c as [? []]
           end; cbn; repeat split; lia.
Qed.

End HarnessMore.

Section HarnessMoreWitnesses.
Import StateMachine SessionHelpers Samples.

(** Resuming an ended session with a handler whose [handleCondense] fails:
    nothing is called, nothing fails. *)
Lemma applyTransition_without_handler_action_witness :
  let r := transition "ended" TurnStart
             {| hasFilesTouched := true; isRebaseInProgress := false |} in
  let fin := applyTransition sampleClock failingCondense sampleState r in
  handlerErr fin = None /\ calls fin = [] /\ phase (state fin) = active /\
  endedAt (state fin) = None /\ lastInteractionTime (state fin) = Some "T1".
Proof.
  cbn zeta.
  rewrite (applyTransition_without_handler_action sampleClock failingCondense sampleState
             (transition "ended" TurnStart
                {| hasFilesTouched := true; isRebaseInProgress := false |})).
  - repeat split.
  - repeat constructor.
Defined.

End HarnessMoreWitnesses.

(** ** Staleness and normalisation after load *)

Section SessionHelpersProperties.
Import StateMachine SessionHelpers.

(** X8. A session without a last interaction time, with an empty one or
    with one that is not a date is never stale.  Otherwise it is stale
    exactly when more than 604800000 ms (seven days) have passed: not yet at
    seven days sharp, and once stale it stays stale as time goes on. *)
Theorem isStale_threshold (getTime : string -> option Z) :
  (forall dateNow, isStale getTime dateNow None = false /\
                   isStale getTime dateNow (Some EmptyString) = false) /\
  (forall dateNow s, getTime s = None -> isStale getTime dateNow (Some s) = false) /\
  (forall dateNow s t, s <> EmptyString -> getTime s = Some t ->
     isStale getTime dateNow (Some s) = bool_decide (604800000 < dateNow - t)) /\
  (forall dateNow dateLater last, dateNow <= dateLater ->
     isStale getTime dateNow last = true -> isStale getTime dateLater last = true).
Proof.
  split; [done|]. split.
  { intros dateNow s Hs. unfold isStale. rewrite Hs. by destruct (String.eqb s _). }
  split.
  { intros dateNow s t Hne Hs. unfold isStale. rewrite Hs.
    apply String.eqb_neq in Hne. rewrite Hne.
    change STALE_SESSION_THRESHOLD_MS with 604800000.
    destruct (Z.ltb_spec 604800000 (dateNow - t));
      [by rewrite bool_decide_eq_true_2 | by rewrite bool_decide_eq_false_2 by lia]. }
  intros dateNow dateLater [s|] Hle; [|done]. unfold isStale.
  destruct (String.eqb s _); [done|]. destruct (getTime s) as [t|]; [|done].
  rewrite !Z.ltb_lt. lia.
Qed.

Lemma isStale_threshold_witness :
  let getTime := fun s : string => if String.eqb s "2026-01-01T00:00:00.000Z"
                                   then Some 1767225600000 else None in
  isStale getTime (1767225600000 + 604800000) (Some "2026-01-01T00:00:00.000Z") = false /\
  isStale getTime (1767225600000 + 604800001) (Some "2026-01-01T00:00:00.000Z") = true /\
  isStale getTime (1767225600000 + 704800000) (Some "2026-01-01T00:00:00.000Z") = true /\
  isStale getTime (1767225600000 + 704800000) (Some "yesterday") = false.
Proof.
  cbn zeta.
  destruct (isStale_threshold
              (fun s : string => if String.eqb s "2026-01-01T00:00:00.000Z"
                                 then Some 1767225600000 else None))
    as (_ & Hinvalid & Hexact & Hlater).
  split; [|split; [|split]].
  - rewrite (Hexact _ _ 1767225600000); [reflexivity | discriminate | reflexivity].
  - rewrite (Hexact _ _ 1767225600000); [reflexivity | discriminate | reflexivity].
  - apply (Hlater (1767225600000 + 604800001)); [lia | reflexivity].
  - apply Hinvalid. reflexivity.
Defined.

(** X9. [normalizeAfterLoad] is idempotent.  It never overwrites a
    checkpoint offset that is set, carries a positive legacy offset over
    when none is set ([condensedTranscriptLines] before
    [transcriptLinesAtStart]), and leaves an attribution base commit
    whenever there is a base commit. *)
Theorem normalizeAfterLoad_idempotent (state : LoadedState) :
  let state' := normalizeAfterLoad state in
  normalizeAfterLoad state' = state' /\
  (truthyNumber (checkpointTranscriptStart state) = true ->
     checkpointTranscriptStart state' = checkpointTranscriptStart state) /\
  (truthyNumber (checkpointTranscriptStart state) = false ->
     positiveNumber (condensedTranscriptLines state)
     || positiveNumber (transcriptLinesAtStart state) = true ->
     positiveNumber (checkpointTranscriptStart state') = true /\
     checkpointTranscriptStart state' =
       if positiveNumber (condensedTranscriptLines state)
       then condensedTranscriptLines state else transcriptLinesAtStart state) /\
  (truthyString (baseCommit state) = true ->
     truthyString (attributionBaseCommit state') = true).
Proof.
  cbn zeta. split; [|split; [|split]].
  - unfold normalizeAfterLoad. cbn [loadedPhase checkpointTranscriptStart
      condensedTranscriptLines transcriptLinesAtStart attributionBaseCommit baseCommit].
    f_equal.
    + f_equal. f_equal. by destruct (phaseFromString (loadedPhase state)).
    + change (positiveNumber (Some 0)) with false. cbn iota.
      by destruct (negb (truthyNumber (if negb _ then _ else _))).
    + destruct (truthyString (attributionBaseCommit state)) eqn:Ha,
               (truthyString (baseCommit state)) eqn:Hb; cbn [negb andb];
        rewrite ?Ha, ?Hb; done.
  - intros Htruthy. unfold normalizeAfterLoad. cbn. by rewrite Htruthy.
  - intros Hunset Hlegacy. unfold normalizeAfterLoad. cbn. rewrite Hunset. cbn.
    destruct (positiveNumber (condensedTranscriptLines state)) eqn:Hc; [done|].
    cbn in Hlegacy. by rewrite Hlegacy.
  - intros Hbase. unfold normalizeAfterLoad. cbn. rewrite Hbase.
    by destruct (truthyString (attributionBaseCommit state)) eqn:Ha.
Qed.

Lemma normalizeAfterLoad_idempotent_witness :
  let state := {| loadedPhase := Some "active_committed";
                  checkpointTranscriptStart := Some 0;
                  condensedTranscriptLines := None;
                  transcriptLinesAtStart := Some 12;
                  attributionBaseCommit := Some EmptyString;
                  baseCommit := Some "abc1234" |} in
  normalizeAfterLoad state =
    {| loadedPhase := Some "active";
       checkpointTranscriptStart := Some 12;
       condensedTranscriptLines := Some 0;
       transcriptLinesAtStart := Some 0;
       attributionBaseCommit := Some "abc1234";
       baseCommit := Some "abc1234" |} /\
  checkpointTranscriptStart (normalizeAfterLoad state) = Some 12 /\
  truthyString (attributionBaseCommit (normalizeAfterLoad state)) = true /\
  checkpointTranscriptStart
    (normalizeAfterLoad {| loadedPhase := None; checkpointTranscriptStart := Some 7;
                           condensedTranscriptLines := Some 3;
                           transcriptLinesAtStart := None;
                           attributionBaseCommit := None; baseCommit := None |}) = Some 7.
Proof.
  cbn zeta. split; [reflexivity|]. split; [|split].
  - match goal with |- checkpointTranscriptStart (normalizeAfterLoad ?s) = _ =>
      destruct (normalizeAfterLoad_idempotent s) as (_ & _ & Hlegacy & _) end.
    destruct (Hlegacy eq_refl eq_refl) as [_ ->]. reflexivity.
  - match goal with |- truthyString (attributionBaseCommit (normalizeAfterLoad ?s)) = _ =>
      destruct (normalizeAfterLoad_idempotent s) as (_ & _ & _ & Hbase) end.
    exact (Hbase eq_refl).
  - match goal with |- checkpointTranscriptStart (normalizeAfterLoad ?s) = _ =>
      destruct (normalizeAfterLoad_idempotent s) as (_ & Hset & _ & _) end.
    rewrite (Hset eq_refl). reflexivity.
Defined.

End SessionHelpersProperties.

(** ** More on line diffs and changed files *)

Section DiffLinesMore.
Import JsString StringUtils Attribution Vocabulary.

Lemma commonLines_comm (old new : string) : commonLines old new = commonLines new old.
Proof. unfold commonLines. by rewrite (comm_L (∩)). Qed.

(** X10. The three counts of [diffLines] are not negative and account for
    every line: unchanged and added lines make up the new text, unchanged
    and removed lines the old one. *)
Theorem diffLines_conservation (oldContent newContent : string) :
  let '(unchanged, added, removed) := diffLines oldContent newContent in
  0 <= unchanged /\ 0 <= added /\ 0 <= removed /\
  unchanged + added = countLines newContent /\
  unchanged + removed = countLines oldContent.
Proof.
  rewrite diffLines_commonLines, !countLines_linesOf.
  pose proof (commonLines_le_new oldContent newContent).
  pose proof (commonLines_le_old oldContent newContent). lia.
Qed.

(** X11. Diffing in the other direction keeps the unchanged count and
    exchanges added and removed. *)
Theorem diffLines_swap (oldContent newContent : string) :
  let '(unchanged, added, removed) := diffLines oldContent newContent in
  diffLines newContent oldContent = (unchanged, removed, added).
Proof.
  rewrite !diffLines_commonLines. by rewrite (commonLines_comm newContent oldContent).
Qed.

(** X12. [getAllChangedFiles] returns, each once, exactly the paths at which
    the two trees differ (bound to different contents, or bound in one tree
    only); equal trees give no path, and exchanging the trees gives the same
    paths. *)
Theorem getAllChangedFiles_differences (tree1 tree2 : gmap string string) :
  NoDup (getAllChangedFiles tree1 tree2) /\
  (forall path, path ∈ getAllChangedFiles tree1 tree2 <-> tree1 !! path <> tree2 !! path) /\
  getAllChangedFiles tree1 tree1 = [] /\
  getAllChangedFiles tree1 tree2 ≡ₚ getAllChangedFiles tree2 tree1.
Proof.
  split; [apply getAllChangedFiles_NoDup|]. split; [apply getAllChangedFiles_elem|]. split.
  - destruct (getAllChangedFiles tree1 tree1) as [|path l] eqn:Hl; [done|].
    assert (path ∈ getAllChangedFiles tree1 tree1) as Hin by (rewrite Hl; left).
    by apply getAllChangedFiles_elem in Hin.
  - apply NoDup_Permutation; [apply getAllChangedFiles_NoDup.. |].
    intros path. rewrite !getAllChangedFiles_elem. split; congruence.
Qed.

End DiffLinesMore.

(** ** More on prompt attribution *)

Section PromptAttributionMore.
Import JsString StringUtils Attribution Vocabulary MoreVocabulary.

Lemma sumZ_cons (x : Z) (l : list Z) : sumZ (x :: l) = x + sumZ l.
Proof. reflexivity. Qed.

Lemma sumZ_values_insert (m : gmap string Z) (k : string) (v : Z) :
  m !! k = None ->
  sumZ (map_to_list (<[k := v]> m)).*2 = v + sumZ (map_to_list m).*2.
Proof.
  intros Hfresh.
  rewrite (sumZ_Permutation _ ((k, v) :: map_to_list m).*2); [done|].
  apply fmap_Permutation. by apply map_to_list_insert.
Qed.

Lemma diffLines_same (s : string) : diffAdded s s = 0 /\ diffRemoved s s = 0.
Proof. unfold diffAdded, diffRemoved, diffLines. by rewrite String.eqb_refl. Qed.

(** X13. In the prompt attribution [calculatePromptAttribution] builds,
    [userAddedPerFile] binds exactly the worktree files with lines added
    since the reference (the last checkpoint, or the base without one), each
    to its positive count, but for a file of path [__proto__], which never
    gets an entry.  [userLinesAdded] is the sum of the entries and of the
    lines added to that file.  Without a last checkpoint no agent line is
    counted. *)
Theorem calculatePromptAttribution_per_file
    (baseFiles : gmap string string) (lastCheckpointFiles : option (gmap string string))
    (worktreeFiles : gmap string string) (checkpointNumber : Z) :
  let pa := calculatePromptAttribution baseFiles lastCheckpointFiles worktreeFiles
              checkpointNumber in
  let referenceFiles := default baseFiles lastCheckpointFiles in
  (forall filePath,
     userAddedPerFile pa !! filePath
     = if decide (filePath = "__proto__") then None
       else worktreeFiles !! filePath ≫= addedEntry referenceFiles filePath) /\
  userLinesAdded pa
  = sumZ (map_to_list (userAddedPerFile pa)).*2
    + default 0 (worktreeFiles !! "__proto__" ≫= addedEntry referenceFiles "__proto__") /\
  (lastCheckpointFiles = None -> agentLinesAdded pa = 0 /\ agentLinesRemoved pa = 0).
Proof.
  cbn zeta. unfold calculatePromptAttribution.
  case_bool_decide as Hsize.
  { apply map_size_empty_iff in Hsize. subst worktreeFiles. cbn.
    split; [intros f; rewrite !lookup_empty; by case_decide|].
    by rewrite map_to_list_empty, lookup_empty. }
  clear Hsize.
  match goal with |- context [map_fold ?f ?b worktreeFiles] =>
    apply (map_fold_weak_ind
             (fun (r : PromptAttribution) (m : gmap string string) =>
                (forall filePath,
                   userAddedPerFile r !! filePath
                   = if decide (filePath = "__proto__") then None
                     else m !! filePath
                            ≫= addedEntry (default baseFiles lastCheckpointFiles) filePath) /\
                userLinesAdded r
                = sumZ (map_to_list (userAddedPerFile r)).*2
                  + default 0 (m !! "__proto__"
                                 ≫= addedEntry (default baseFiles lastCheckpointFiles)
                                      "__proto__") /\
                (lastCheckpointFiles = None ->
                 agentLinesAdded r = 0 /\ agentLinesRemoved r = 0))
             f b)
  end.
  { cbn. split; [intros f; rewrite !lookup_empty; by case_decide|].
    by rewrite map_to_list_empty, lookup_empty. }
  intros filePath content m r Hfresh (Hper & Hsum & Hagent).
  cbn [userAddedPerFile userLinesAdded agentLinesAdded agentLinesRemoved].
  set (added := diffAdded (getOrEmpty (default baseFiles lastCheckpointFiles) filePath)
                          content).
  assert (userAddedPerFile r !! filePath = None) as Hnone
    by (rewrite Hper, Hfresh; by case_decide).
  pose proof (diffAdded_nonneg
                (getOrEmpty (default baseFiles lastCheckpointFiles) filePath) content)
    as Hnonneg. fold added in Hnonneg.
  unfold objectSet.
  split; [|split].
  - intros f. specialize (Hper f). revert Hper.
    destruct (decide (f = "__proto__")) as [->|Hf]; intros Hper.
    + destruct (0 <? added); [|done].
      case_decide; [done|]. by rewrite lookup_insert_ne.
    + destruct (decide (filePath = f)) as [<-|Hne].
      * rewrite lookup_insert_eq. cbn. unfold addedEntry. fold added.
        destruct (0 <? added); [|done].
        rewrite decide_False by done. by rewrite lookup_insert_eq.
      * rewrite (lookup_insert_ne m) by done. rewrite <-Hper.
        destruct (0 <? added); [|done].
        case_decide; [done|]. by rewrite lookup_insert_ne.
  - destruct (decide (filePath = "__proto__")) as [Hproto|Hproto].
    + subst added. subst filePath. rewrite Hfresh in Hsum. cbn in Hsum.
      rewrite lookup_insert_eq. cbn. unfold addedEntry.
      destruct (Z.ltb_spec 0
                  (diffAdded (getOrEmpty (default baseFiles lastCheckpointFiles) "__proto__")
                     content)); cbn; lia.
    + rewrite (lookup_insert_ne m) by done.
      destruct (Z.ltb_spec 0 added); [|lia].
      rewrite sumZ_values_insert by done. lia.
  - intros ->. cbn. destruct (Hagent eq_refl) as [-> ->]. done.
Qed.

(** X14. When every worktree file has the content the reference has for it
    (an absent file counting as empty), the turn records no human line:
    nothing added, nothing removed, no per-file entry. *)
Theorem calculatePromptAttribution_no_user_edit
    (baseFiles : gmap string string) (lastCheckpointFiles : option (gmap string string))
    (worktreeFiles : gmap string string) (checkpointNumber : Z) :
  (forall filePath content,
     worktreeFiles !! filePath = Some content ->
     getOrEmpty (default baseFiles lastCheckpointFiles) filePath = content) ->
  let pa := calculatePromptAttribution baseFiles lastCheckpointFiles worktreeFiles
              checkpointNumber in
  userLinesAdded pa = 0 /\ userLinesRemoved pa = 0 /\ userAddedPerFile pa = ∅.
Proof.
  cbn zeta. unfold calculatePromptAttribution.
  case_bool_decide as Hsize; [done|]. clear Hsize.
  match goal with |- _ -> ?G =>
    match G with context [map_fold ?f ?b worktreeFiles] =>
      apply (map_fold_weak_ind
               (fun (r : PromptAttribution) (m : gmap string string) =>
                  (forall filePath content,
                     m !! filePath = Some content ->
                     getOrEmpty (default baseFiles lastCheckpointFiles) filePath = content) ->
                  userLinesAdded r = 0 /\ userLinesRemoved r = 0 /\
                  userAddedPerFile r = ∅)
               f b)
    end
  end; [done|].
  intros filePath content m r Hfresh IH Hsame.
  destruct IH as (Hadd & Hrem & Hper).
  { intros f c Hf. apply Hsame. rewrite lookup_insert_ne; [done|]. congruence. }
  cbn [userAddedPerFile userLinesAdded userLinesRemoved].
  rewrite (Hsame filePath content) by apply lookup_insert_eq.
  destruct (diffLines_same content) as [-> ->]. cbn. repeat split; try lia. done.
Qed.

End PromptAttributionMore.

(** ** More on commit attribution *)

Section AccumulatedMore.
Import JsString StringUtils Attribution Vocabulary MoreVocabulary.
Variables baseFiles shadowFiles headFiles : gmap string string.

Lemma touchedStep_sums (t : TouchedTotals) (files : list string) :
  let t' := foldl (touchedStep baseFiles shadowFiles headFiles) t files in
  totalAgentAndUserWork t'
  = totalAgentAndUserWork t + workInShadow baseFiles shadowFiles files /\
  postCheckpointUserAdded t'
  = postCheckpointUserAdded t
    + sumZ ((fun path => diffAdded (getOrEmpty shadowFiles path) (getOrEmpty headFiles path))
              <$> files) /\
  postCheckpointUserRemoved t'
  = postCheckpointUserRemoved t
    + sumZ (removedAfterCheckpoint shadowFiles headFiles <$> files).
Proof.
  cbn zeta. unfold workInShadow. revert t.
  induction files as [|f files IH]; intros t; cbn [foldl fmap list_fmap].
  - unfold sumZ. cbn. lia.
  - destruct (IH (touchedStep baseFiles shadowFiles headFiles t f)) as (-> & -> & ->).
    rewrite !sumZ_cons. unfold removedAfterCheckpoint. cbn. lia.
Qed.

Lemma sumZ_zero {A} (g : A -> Z) (l : list A) :
  (forall x, x ∈ l -> g x = 0) -> sumZ (g <$> l) = 0.
Proof.
  induction l as [|x l IH]; intros Hzero; [done|].
  rewrite fmap_cons, sumZ_cons, IH, (Hzero x); [done | by left |].
  intros y Hy. apply Hzero. by right.
Qed.

Lemma nonAgentStep_all_touched (filesTouched : list string) (total : Z)
    (paths : list string) :
  (forall path, path ∈ paths -> path ∈ filesTouched) ->
  foldl (nonAgentStep baseFiles headFiles filesTouched) total paths = total.
Proof.
  revert total. induction paths as [|p paths IH]; intros total Hall; [done|].
  cbn [foldl]. unfold nonAgentStep at 2.
  rewrite bool_decide_eq_true_2 by (apply Hall; left).
  apply IH. intros path Hpath. apply Hall. by right.
Qed.

(** X15. A commit that is the agent's work alone: no prompt attribution,
    the touched files committed as the last checkpoint has them, nothing
    changed outside the touched files.  Then no line is the human's, the
    agent's lines are the lines the checkpoint adds over the base, they are
    the whole commit, and the percentage is 100 (0 when no line was added). *)
Theorem agent_only_commit (now : string) (filesTouched : list string) :
  filesTouched <> [] ->
  (forall path, path ∈ filesTouched ->
     getOrEmpty shadowFiles path = getOrEmpty headFiles path) ->
  (forall path, path ∉ filesTouched -> baseFiles !! path = headFiles !! path) ->
  exists ia,
    calculateAttributionWithAccumulated baseFiles shadowFiles headFiles now
      filesTouched [] = Some ia /\
    humanAdded ia = 0 /\ humanModified ia = 0 /\ humanRemoved ia = 0 /\
    agentLines ia = workInShadow baseFiles shadowFiles filesTouched /\
    totalCommitted ia = workInShadow baseFiles shadowFiles filesTouched /\
    (agentPercentage ia ==
       if 0 <? workInShadow baseFiles shadowFiles filesTouched then 100 else 0)%Q.
Proof.
  intros Hne Hshadow Hbase. unfold calculateAttributionWithAccumulated.
  rewrite bool_decide_eq_false_2 by done. eexists. split; [reflexivity|].
  set (init := {| totalAgentAndUserWork := 0; postCheckpointUserAdded := 0;
                  postCheckpointUserRemoved := 0;
                  postCheckpointUserRemovedPerFile := ∅ |}).
  assert (userAndAgentTotals baseFiles shadowFiles headFiles filesTouched []
          = {| totalAgentAdded := workInShadow baseFiles shadowFiles filesTouched;
               totalUserAdded := 0; totalUserRemoved := 0; userSelfModified := 0 |})
    as ->.
  { unfold userAndAgentTotals. cbv zeta. cbn [foldl]. rewrite map_fold_empty.
    fold init.
    destruct (touchedStep_sums init filesTouched) as (Hwork & Hadd & Hrem).
    cbn zeta in Hwork, Hadd, Hrem. rewrite Hwork, Hadd, Hrem. cbn [init
      totalAgentAndUserWork postCheckpointUserAdded postCheckpointUserRemoved].
    rewrite (sumZ_zero _ filesTouched), (sumZ_zero _ filesTouched).
    2:{ intros f Hf. unfold removedAfterCheckpoint. rewrite (Hshadow f Hf).
        apply diffLines_same. }
    2:{ intros f Hf. rewrite (Hshadow f Hf). apply diffLines_same. }
    rewrite nonAgentStep_all_touched.
    2:{ intros path Hpath. apply getAllChangedFiles_elem in Hpath.
        destruct (decide (path ∈ filesTouched)) as [|Hnot]; [done|].
        by destruct (Hpath (Hbase path Hnot)). }
    assert (postCheckpointUserRemovedPerFile
              (foldl (touchedStep baseFiles shadowFiles headFiles) init filesTouched) = ∅)
      as ->.
    { apply map_eq. intros path. rewrite removedPerFile_lookup, lookup_empty.
      rewrite bool_decide_eq_false_2; [done|]. intros [Hin Hpos].
      unfold removedAfterCheckpoint in Hpos. rewrite (Hshadow path Hin) in Hpos.
      destruct (diffLines_same (getOrEmpty headFiles path)) as [_ Hzero]. lia. }
    unfold estimateUserSelfModifications. rewrite map_fold_empty.
    assert (0 <= workInShadow baseFiles shadowFiles filesTouched) as Hnonneg.
    { apply sumZ_nonneg, Forall_fmap, Forall_forall. intros f _. apply diffAdded_nonneg. }
    f_equal; lia. }
  assert (0 <= workInShadow baseFiles shadowFiles filesTouched) as Hnonneg.
  { apply sumZ_nonneg, Forall_fmap, Forall_forall. intros f _. apply diffAdded_nonneg. }
  generalize dependent (workInShadow baseFiles shadowFiles filesTouched). intros work Hwork.
  unfold finalSplit.
  cbn [totalAgentAdded totalUserAdded totalUserRemoved userSelfModified
       agentPercentage agentLines humanAdded humanModified humanRemoved totalCommitted].
  replace (Z.min 0 0) with 0 by lia.
  replace (work + (0 - 0) - (0 - 0)) with work by lia.
  replace (Z.max 0 (work - (0 - 0) - Z.max 0 (0 - 0))) with work by lia.
  assert ((if work <=? 0 then Z.max 0 work else work) = work) as ->
    by (destruct (Z.leb_spec work 0); lia).
  repeat split; try lia.
  destruct (Z.ltb_spec 0 work) as [Hpos|Hzero]; [|reflexivity].
  unfold Qeq, Qdiv, Qmult, Qinv, inject_Z. cbn.
  destruct work as [|w|w]; [lia| |lia]. cbn. lia.
Qed.

End AccumulatedMore.

Section TouchedOrder.
Import JsString StringUtils Attribution Vocabulary MoreVocabulary.
Variables baseFiles shadowFiles headFiles : gmap string string.

Lemma touchedStep_swap (t : TouchedTotals) (x y : string) :
  touchedStep baseFiles shadowFiles headFiles
    (touchedStep baseFiles shadowFiles headFiles t x) y
  = touchedStep baseFiles shadowFiles headFiles
      (touchedStep baseFiles shadowFiles headFiles t y) x.
Proof.
  unfold touchedStep. cbn [totalAgentAndUserWork postCheckpointUserAdded
    postCheckpointUserRemoved postCheckpointUserRemovedPerFile].
  f_equal; try lia.
  destruct (decide (x = y)) as [->|Hne]; [done|].
  repeat match goal with |- context [if ?c then _ else _] => destruct c end;
    try done; by apply insert_insert_ne.
Qed.

Lemma touchedStep_Permutation (t : TouchedTotals) (files files' : list string) :
  files ≡ₚ files' ->
  foldl (touchedStep baseFiles shadowFiles headFiles) t files
  = foldl (touchedStep baseFiles shadowFiles headFiles) t files'.
Proof.
  intros Hperm. revert t.
  induction Hperm as [|x l l' _ IH|x y l|l l' l'' _ IH1 _ IH2]; intros t; cbn [foldl].
  - done.
  - apply IH.
  - by rewrite touchedStep_swap.
  - by rewrite IH1, IH2.
Qed.

Lemma foldl_pointwise {A B} (f g : B -> A -> B) (b : B) (l : list A) :
  (forall b x, f b x = g b x) -> foldl f b l = foldl g b l.
Proof.
  intros Hfg. revert b. induction l as [|x l IH]; intros b; cbn [foldl]; [done|].
  by rewrite Hfg, IH.
Qed.

Lemma foldr_pointwise {A B} (f g : A -> B -> B) (b : B) (l : list A) :
  (forall x b, f x b = g x b) -> foldr f b l = foldr g b l.
Proof.
  intros Hfg. induction l as [|x l IH]; cbn [foldr]; [done|]. by rewrite Hfg, IH.
Qed.

(** X16. The attribution does not depend on the order in which the touched
    files are listed. *)
Theorem calculateAttributionWithAccumulated_order (now : string)
    (filesTouched filesTouched' : list string)
    (promptAttributions : list PromptAttribution) :
  filesTouched ≡ₚ filesTouched' ->
  calculateAttributionWithAccumulated baseFiles shadowFiles headFiles now
    filesTouched promptAttributions
  = calculateAttributionWithAccumulated baseFiles shadowFiles headFiles now
      filesTouched' promptAttributions.
Proof.
  intros Hperm.
  assert (forall path, path ∈ filesTouched <-> path ∈ filesTouched') as Hmem
    by (intros path; by rewrite Hperm).
  unfold calculateAttributionWithAccumulated.
  assert (bool_decide (filesTouched = []) = bool_decide (filesTouched' = [])) as ->.
  { apply bool_decide_ext. split; intros ->.
    - by apply Permutation_nil_l in Hperm.
    - by apply Permutation_nil_r in Hperm. }
  case_bool_decide; [done|]. do 2 f_equal.
  unfold userAndAgentTotals. cbv zeta.
  rewrite (touchedStep_Permutation _ filesTouched filesTouched' Hperm).
  rewrite (foldl_pointwise (nonAgentStep baseFiles headFiles filesTouched)
             (nonAgentStep baseFiles headFiles filesTouched')).
  2:{ intros total path. unfold nonAgentStep.
      by rewrite (bool_decide_ext _ _ (Hmem path)). }
  rewrite (list_filter_iff (fun f => f ∉ filesTouched) (fun f => f ∉ filesTouched')).
  2:{ intros path. by rewrite Hmem. }
  rewrite !map_fold_foldr.
  set (committed := filter (fun f => f ∉ filesTouched') _).
  rewrite (foldr_pointwise
             (uncurry (separateStep filesTouched committed))
             (uncurry (separateStep filesTouched' committed))).
  2:{ intros [path added] acc. cbn. unfold separateStep.
      by rewrite (bool_decide_ext _ _ (Hmem path)). }
  done.
Qed.

End TouchedOrder.

(** ** More on content overlap *)

Section OverlapMore.
Import JsString Vocabulary ContentOverlap OverlapSpec ContentOverlapMore.

Lemma filter_in_nil (l : list string) :
  filter (fun line => line ∈ ([] : list string)) l = [].
Proof.
  induction l as [|x l IH]; [done|].
  rewrite filter_cons_False by apply not_elem_of_nil. exact IH.
Qed.

(** [hasSignificantContentOverlap] decides whether enough significant
    lines are shared. *)
Lemma hasSignificantContentOverlap_decide (a b : string) :
  hasSignificantContentOverlap a b
  = bool_decide (requiredShared a b <= size (significantLines a ∩ significantLines b))%nat.
Proof.
  unfold hasSignificantContentOverlap, requiredShared.
  destruct (extractSignificantLines_spec a) as [Hnda Hseta].
  destruct (extractSignificantLines_spec b) as [Hndb Hsetb].
  rewrite <-(length_extractSignificantLines a), <-(length_extractSignificantLines b),
    <-Hseta, <-Hsetb.
  rewrite <-(shared_count (extractSignificantLines b) (extractSignificantLines a) Hnda).
  set (sa := extractSignificantLines a) in *. set (sb := extractSignificantLines b) in *.
  pose proof (length_filter (fun line => line ∈ sb) sa) as Hfa.
  destruct (Nat.eqb_spec (length sb) 0) as [Hb0|Hb0]; cbn [orb].
  { apply nil_length_inv in Hb0. rewrite Hb0, filter_in_nil. symmetry.
    apply bool_decide_eq_false_2. repeat case_bool_decide; cbn; lia. }
  destruct (Nat.eqb_spec (length sa) 0) as [Ha0|Ha0]; cbn [orb].
  { symmetry. apply bool_decide_eq_false_2. repeat case_bool_decide; cbn [orb]; lia. }
  destruct (Nat.ltb_spec (length sb) 2) as [Hb2|Hb2];
    destruct (Nat.ltb_spec (length sa) 2) as [Ha2|Ha2]; cbn [orb];
    rewrite matchLoop_count by lia;
    repeat case_bool_decide; cbn [orb] in *; try done; lia.
Qed.

(** X17. Significant overlap is symmetric, although the code iterates over
    the lines of its first argument only; and a content overlaps with
    itself exactly when it has a significant line. *)
Theorem hasSignificantContentOverlap_symmetric (a b : string) :
  hasSignificantContentOverlap a b = hasSignificantContentOverlap b a /\
  hasSignificantContentOverlap a a = bool_decide (significantLines a <> ∅).
Proof.
  split.
  - rewrite !hasSignificantContentOverlap_decide. unfold requiredShared.
    rewrite (comm_L (∩) (significantLines a)), (orb_comm (bool_decide _)). done.
  - rewrite hasSignificantContentOverlap_decide. unfold requiredShared.
    rewrite (idemp_L (∩)), orb_diag. apply bool_decide_ext.
    rewrite <-(leibniz_equiv_iff (significantLines a) ∅), <-size_non_empty_iff.
    case_bool_decide; lia.
Qed.

Lemma hasOverlappingFiles_iff (stagedFiles filesTouched : list string) :
  hasOverlappingFiles stagedFiles filesTouched = true <->
  exists f, f ∈ stagedFiles /\ f ∈ filesTouched.
Proof.
  unfold hasOverlappingFiles. rewrite existsb_exists. split.
  - intros (f & Hin & Hk). exists f. apply list_elem_of_In in Hin.
    by apply bool_decide_eq_true_1 in Hk.
  - intros (f & Hin & Hk). exists f. split; [by apply list_elem_of_In|].
    by apply bool_decide_eq_true_2.
Qed.

(** X18. [hasOverlappingFiles] holds exactly when a staged file is among
    the touched files; the two lists can be exchanged. *)
Theorem hasOverlappingFiles_common (stagedFiles filesTouched : list string) :
  (hasOverlappingFiles stagedFiles filesTouched = true <->
   exists f, f ∈ stagedFiles /\ f ∈ filesTouched) /\
  hasOverlappingFiles stagedFiles filesTouched
  = hasOverlappingFiles filesTouched stagedFiles.
Proof.
  split; [apply hasOverlappingFiles_iff|].
  apply eq_true_iff_eq. rewrite !hasOverlappingFiles_iff.
  split; intros (f & ? & ?); by exists f.
Qed.

End OverlapMore.

Section StagedOverlap.
Import JsString ContentOverlap ContentOverlapMore.
Variable gitSafe : list string -> option string -> option string.
Variable shadowBranchName : string.
Variable cwd : option string.

Lemma stagedOverlapOfFile_only_true (filesTouched : list string) (stagedPath : string)
    (b : bool) :
  stagedOverlapOfFile gitSafe shadowBranchName cwd filesTouched stagedPath = Some b ->
  b = true /\ stagedPath ∈ filesTouched.
Proof.
  unfold stagedOverlapOfFile. case_bool_decide as Hin; cbn [negb]; [|done].
  repeat (case_match; try discriminate); by intros [= <-].
Qed.

(** X19. The content-aware check on staged files refines the check on file
    names: it can only hold when a staged file is among the touched files.
    It does hold as soon as a staged, touched file exists in [HEAD]. *)
Theorem stagedFilesOverlapWithContent_refines (stagedFiles filesTouched : list string) :
  (stagedFilesOverlapWithContent gitSafe shadowBranchName cwd stagedFiles filesTouched
   = true ->
   hasOverlappingFiles stagedFiles filesTouched = true) /\
  (forall stagedPath,
     stagedPath ∈ stagedFiles -> stagedPath ∈ filesTouched ->
     gitSafe ["show"; "HEAD:" ++ stagedPath] cwd <> None ->
     stagedFilesOverlapWithContent gitSafe shadowBranchName cwd stagedFiles filesTouched
     = true).
Proof.
  unfold stagedFilesOverlapWithContent. split.
  - intros Htrue. apply hasOverlappingFiles_iff.
    induction stagedFiles as [|p rest IH]; [done|]. cbn [stagedLoop] in Htrue.
    destruct (stagedOverlapOfFile _ _ _ _ p) as [b|] eqn:Hp.
    + apply stagedOverlapOfFile_only_true in Hp as [_ Hin]. exists p. split; [left|done].
    + destruct (IH Htrue) as (f & Hf & Hf'). exists f. split; [by right|done].
  - intros stagedPath Hstaged Htouched Hhead.
    induction stagedFiles as [|p rest IH]; [by apply elem_of_nil in Hstaged|].
    cbn [stagedLoop].
    destruct (stagedOverlapOfFile _ _ _ _ p) as [b|] eqn:Hp.
    + by apply stagedOverlapOfFile_only_true in Hp as [-> _].
    + apply elem_of_cons in Hstaged as [->|Hstaged]; [|by apply IH].
      unfold stagedOverlapOfFile in Hp.
      rewrite bool_decide_eq_true_2 in Hp by done. cbn [negb] in Hp.
      by destruct (gitSafe ["show"; "HEAD:" ++ p] cwd).
Qed.

Variable headCommitHash : string.

Lemma remaining_from (committedFiles : gset string) (acc files : list string) :
  foldl (fun remaining filePath =>
           if remainsChanged gitSafe shadowBranchName cwd headCommitHash
                committedFiles filePath
           then (remaining ++ [filePath])%list else remaining) acc files
  = (acc ++ filter (fun f => remainsChanged gitSafe shadowBranchName cwd headCommitHash
                               committedFiles f = true) files)%list.
Proof.
  revert acc. induction files as [|f files IH]; intros acc; cbn [foldl].
  - by rewrite filter_nil, app_nil_r.
  - rewrite IH. destruct (remainsChanged _ _ _ _ _ f) eqn:Hf.
    + rewrite filter_cons_True by done. by rewrite <-app_assoc.
    + rewrite filter_cons_False by (rewrite Hf; done). done.
Qed.

(** X20. [filesWithRemainingAgentChanges] returns touched files only, in
    the order of [filesTouched].  Every touched file that was not committed
    is returned.  A committed file is not returned when its committed blob
    is the shadow branch's blob, nor when one of the two blobs cannot be
    resolved. *)
Theorem filesWithRemainingAgentChanges_sublist (filesTouched : list string)
    (committedFiles : gset string) :
  let remaining :=
    filesWithRemainingAgentChanges gitSafe shadowBranchName cwd headCommitHash
      filesTouched committedFiles in
  remaining `sublist_of` filesTouched /\
  (forall f, f ∈ filesTouched -> f ∉ committedFiles -> f ∈ remaining) /\
  (forall f commitHash shadowHash,
     f ∈ committedFiles ->
     gitSafe ["rev-parse"; headCommitHash ++ ":" ++ f] cwd = Some commitHash ->
     gitSafe ["rev-parse"; "refs/heads/" ++ shadowBranchName ++ ":" ++ f] cwd
     = Some shadowHash ->
     trim commitHash = trim shadowHash -> f ∉ remaining) /\
  (forall f,
     f ∈ committedFiles ->
     gitSafe ["rev-parse"; headCommitHash ++ ":" ++ f] cwd = None \/
     gitSafe ["rev-parse"; "refs/heads/" ++ shadowBranchName ++ ":" ++ f] cwd = None ->
     f ∉ remaining).
Proof.
  cbn zeta. unfold filesWithRemainingAgentChanges. rewrite remaining_from, app_nil_l.
  split; [apply sublist_filter|]. split; [|split].
  - intros f Hin Hnot. apply list_elem_of_filter. split; [|done].
    unfold remainsChanged. by rewrite bool_decide_eq_false_2.
  - intros f commitHash shadowHash Hcommitted Hc Hs Heq Hin.
    apply list_elem_of_filter in Hin as [Hrem _]. unfold remainsChanged in Hrem.
    rewrite bool_decide_eq_true_2 in Hrem by done. cbn [negb] in Hrem.
    rewrite Hc, Hs, Heq, String.eqb_refl in Hrem. discriminate.
  - intros f Hcommitted Hnone Hin.
    apply list_elem_of_filter in Hin as [Hrem _]. unfold remainsChanged in Hrem.
    rewrite bool_decide_eq_true_2 in Hrem by done. cbn [negb] in Hrem.
    destruct Hnone as [Hnone|Hnone]; rewrite Hnone in Hrem;
      [done | by destruct (gitSafe ["rev-parse"; headCommitHash ++ ":" ++ f] cwd)].
Qed.

End StagedOverlap.

Section CommittedOverlap.
Import JsString ContentOverlap ContentOverlapMore.
Variable gitSafe : list string -> option string -> option string.
Variables shadowBranchName headCommitHash : string.
Variable parentCommitHash : option string.
Variable cwd : option string.

(** X21. [filesOverlapWithContent] can only hold on account of a touched
    file that [HEAD] or the parent commit has: when every touched file is
    absent from both, there is no overlap, whatever the shadow branch
    holds. *)
Theorem filesOverlapWithContent_needs_committed_file (filesTouched : list string) :
  (forall f, f ∈ filesTouched ->
     gitSafe ["show"; headCommitHash ++ ":" ++ f] cwd = None /\
     forall parent, parentCommitHash = Some parent ->
                    gitSafe ["show"; parent ++ ":" ++ f] cwd = None) ->
  filesOverlapWithContent gitSafe shadowBranchName headCommitHash parentCommitHash cwd
    filesTouched = false.
Proof.
  intros Habsent. unfold filesOverlapWithContent. case_bool_decide; [done|].
  clear H. induction filesTouched as [|f files IH]; [done|]. cbn [overlapLoop].
  destruct (Habsent f) as [Hhead Hparent]; [left|].
  unfold overlapOfFile at 1. rewrite Hhead.
  assert (forall c, parentContentOf gitSafe parentCommitHash cwd f <> Some (Some c))
    as Hnone.
  { unfold parentContentOf. destruct parentCommitHash as [parent|]; [|done].
    rewrite (Hparent parent eq_refl). by destruct (truthy (Some parent)). }
  destruct (parentContentOf gitSafe parentCommitHash cwd f) as [[c|]|] eqn:Hc.
  - by destruct (Hnone c).
  - apply IH. intros g Hg. apply Habsent. by right.
  - apply IH. intros g Hg. apply Habsent. by right.
Qed.

(** X22. A touched file that [HEAD] has with the very blob the shadow branch
    has for it (the two [rev-parse] answers agree up to surrounding white
    space) is an overlap, with or without a parent commit. *)
Theorem filesOverlapWithContent_same_blob (filesTouched : list string)
    (f headContent shadowContent headHash shadowHash : string) :
  f ∈ filesTouched ->
  gitSafe ["show"; headCommitHash ++ ":" ++ f] cwd = Some headContent ->
  gitSafe ["show"; "refs/heads/" ++ shadowBranchName ++ ":" ++ f] cwd = Some shadowContent ->
  gitSafe ["rev-parse"; headCommitHash ++ ":" ++ f] cwd = Some headHash ->
  gitSafe ["rev-parse"; "refs/heads/" ++ shadowBranchName ++ ":" ++ f] cwd
  = Some shadowHash ->
  trim headHash = trim shadowHash ->
  filesOverlapWithContent gitSafe shadowBranchName headCommitHash parentCommitHash cwd
    filesTouched = true.
Proof.
  intros Hin Hhead Hshadow Hhh Hsh Heq. unfold filesOverlapWithContent.
  case_bool_decide as Hnil; [subst; by apply elem_of_nil in Hin|]. clear Hnil.
  induction filesTouched as [|g files IH]; [by apply elem_of_nil in Hin|].
  cbn [overlapLoop].
  destruct (overlapOfFile _ _ _ _ _ g) as [b|] eqn:Hg.
  - by apply overlapOfFile_only_true in Hg.
  - apply elem_of_cons in Hin as [->|Hin]; [|by apply IH].
    unfold overlapOfFile in Hg. rewrite Hhead, Hshadow, Hhh, Hsh, Heq in Hg.
    rewrite String.eqb_refl in Hg.
    by destruct (match parentContentOf gitSafe parentCommitHash cwd g with
                 | Some parentContent => bool_decide (parentContent <> None)
                 | None => false
                 end).
Qed.

End CommittedOverlap.

(** ** More on the string utilities *)

Section CountLinesMore.
Import JsString StringUtils.

Lemma countNewlinesFrom_nonneg (s : string) : 0 <= countNewlinesFrom 0 s.
Proof.
  induction s as [|c s IH]; cbn [countNewlinesFrom]; [lia|].
  rewrite countNewlinesFrom_acc. destruct (Ascii.eqb c newline); lia.
Qed.

Lemma countNewlinesFrom_app (a b : string) :
  countNewlinesFrom 0 (a ++ b) = countNewlinesFrom 0 a + countNewlinesFrom 0 b.
Proof.
  induction a as [|c a IH]; [done|].
  change (String c a ++ b) with (String c (a ++ b)). cbn [countNewlinesFrom].
  rewrite (countNewlinesFrom_acc _ (a ++ b)), (countNewlinesFrom_acc _ a), IH. lia.
Qed.

Lemma endsWithNewline_app (a b : string) :
  b <> EmptyString -> endsWithNewline (a ++ b) = endsWithNewline b.
Proof.
  intros Hb. induction a as [|c a IH]; [done|].
  change (String c a ++ b) with (String c (a ++ b)).
  rewrite endsWithNewline_cons; [done|]. destruct a; [by destruct b | done].
Qed.

Lemma countNewlinesFrom_pos (s : string) :
  endsWithNewline s = true -> 0 < countNewlinesFrom 0 s.
Proof.
  induction s as [|c s IH]; [done|]. intros Hends.
  cbn [countNewlinesFrom]. rewrite countNewlinesFrom_acc.
  pose proof (countNewlinesFrom_nonneg s).
  destruct s as [|c' s'].
  - unfold endsWithNewline in Hends. cbn in Hends. rewrite Hends. cbn. lia.
  - rewrite endsWithNewline_cons in Hends by done. specialize (IH Hends).
    destruct (Ascii.eqb c newline); lia.
Qed.

(** X23. Only the empty text has no line.  Line counts add up when the
    first text is empty or ends with a newline; otherwise the last line of
    the first text and the first line of the second are one line. *)
Theorem countLines_append (a b : string) :
  (countLines a = 0 <-> a = EmptyString) /\
  (a = EmptyString \/ endsWithNewline a = true ->
   countLines (a ++ b) = countLines a + countLines b) /\
  (a <> EmptyString -> endsWithNewline a = false -> b <> EmptyString ->
   countLines (a ++ b) = countLines a + countLines b - 1).
Proof.
  assert (forall s, s <> EmptyString -> String.eqb s EmptyString = false) as Hneq
    by (intros s Hs; by apply String.eqb_neq).
  split; [|split].
  - unfold countLines. destruct (String.eqb_spec a EmptyString) as [->|Hne]; [done|].
    pose proof (countNewlinesFrom_nonneg a). split; [|done].
    destruct (endsWithNewline a) eqn:Hends; cbn [negb]; [|lia].
    pose proof (countNewlinesFrom_pos a Hends). lia.
  - intros [->|Hends];
      [change (EmptyString ++ b) with b; change (countLines EmptyString) with 0; lia|].
    destruct (String.eqb_spec a EmptyString) as [->|Ha]; [done|].
    destruct (String.eqb_spec b EmptyString) as [->|Hb].
    { change (countLines EmptyString) with 0.
      replace (a ++ EmptyString) with a; [lia|].
      clear. induction a as [|c a IH]; [done|].
      change (String c a ++ EmptyString) with (String c (a ++ EmptyString)).
      by rewrite <-IH. }
    unfold countLines. rewrite Hends, (Hneq a Ha), (Hneq b Hb), endsWithNewline_app by done.
    assert (String.eqb (a ++ b) EmptyString = false) as -> by (by destruct a).
    rewrite countNewlinesFrom_app. cbn [negb]. destruct (endsWithNewline b); cbn; lia.
  - intros Ha Hends Hb.
    unfold countLines. rewrite Hends, (Hneq a Ha), (Hneq b Hb), endsWithNewline_app by done.
    assert (String.eqb (a ++ b) EmptyString = false) as -> by (by destruct a).
    rewrite countNewlinesFrom_app. cbn [negb]. destruct (endsWithNewline b); cbn; lia.
Qed.

End CountLinesMore.

Section CollapseWhitespace.
Import JsString StringUtilsMore.

Lemma replaceRuns_singleSpaces (p : bool) (s : string) :
  singleSpaces p (replaceRuns p s) = true.
Proof.
  revert p. induction s as [|c s IH]; intros p; [done|]. cbn [replaceRuns].
  destruct (isWhiteSpace c) eqn:Hc.
  - destruct p; [apply IH|]. cbn [singleSpaces]. by rewrite IH.
  - cbn [singleSpaces]. by rewrite Hc.
Qed.

Lemma singleSpaces_true_false (s : string) :
  singleSpaces true s = true -> singleSpaces false s = true.
Proof.
  destruct s as [|c s]; [done|]. cbn [singleSpaces].
  destruct (isWhiteSpace c); [|done]. by rewrite andb_false_r.
Qed.

Lemma singleSpaces_true_trimStart (s : string) :
  singleSpaces true s = true -> trimStart s = s.
Proof.
  destruct s as [|c s]; [done|]. cbn [singleSpaces trimStart].
  destruct (isWhiteSpace c); [|done]. by rewrite andb_false_r.
Qed.

Lemma trimStart_singleSpaces (s : string) :
  singleSpaces false s = true -> singleSpaces true (trimStart s) = true.
Proof.
  destruct s as [|c s]; [done|]. cbn [singleSpaces trimStart].
  destruct (isWhiteSpace c) eqn:Hc.
  - rewrite andb_true_r. intros [_ Hs]%andb_true_iff.
    by rewrite (singleSpaces_true_trimStart s Hs).
  - intros Hs. cbn [singleSpaces]. by rewrite Hc.
Qed.

Lemma trimEnd_singleSpaces (p : bool) (s : string) :
  singleSpaces p s = true -> singleSpaces p (trimEnd s) = true.
Proof.
  revert p. induction s as [|c s IH]; intros p; [done|]. cbn [singleSpaces trimEnd].
  destruct (isWhiteSpace c) eqn:Hc.
  - intros [[Hsp Hp]%andb_true_iff Hs]%andb_true_iff. specialize (IH true Hs).
    destruct (trimEnd s) as [|c' s'] eqn:Ht; [done|].
    cbn [singleSpaces]. rewrite Hc, Hsp, Hp. exact IH.
  - intros Hs. specialize (IH false Hs).
    destruct (trimEnd s) as [|c' s'] eqn:Ht; cbn [singleSpaces]; by rewrite Hc.
Qed.

Lemma trimEnd_no_trailing (s : string) : endsWithWhiteSpace (trimEnd s) = false.
Proof.
  induction s as [|c s IH]; [done|]. cbn [trimEnd].
  destruct (trimEnd s) as [|c' s'] eqn:Ht.
  - destruct (isWhiteSpace c) eqn:Hc; [done|]. unfold endsWithWhiteSpace. cbn. exact Hc.
  - unfold endsWithWhiteSpace in *. exact IH.
Qed.

Lemma trimEnd_id (s : string) : endsWithWhiteSpace s = false -> trimEnd s = s.
Proof.
  induction s as [|c s IH]; [done|]. intros Hend. cbn [trimEnd].
  destruct s as [|c' s'].
  - unfold endsWithWhiteSpace in Hend. cbn in Hend |- *. by rewrite Hend.
  - rewrite IH by exact Hend. done.
Qed.

Lemma replaceRuns_id (p : bool) (s : string) :
  singleSpaces p s = true -> replaceRuns p s = s.
Proof.
  revert p. induction s as [|c s IH]; intros p; [done|]. cbn [singleSpaces replaceRuns].
  destruct (isWhiteSpace c) eqn:Hc.
  - intros [[Hsp Hp]%andb_true_iff Hs]%andb_true_iff.
    destruct p; [done|]. rewrite (IH true Hs).
    apply Ascii.eqb_eq in Hsp. by subst c.
  - intros Hs. by rewrite (IH false Hs).
Qed.

(** X24. [collapseWhitespace] returns words separated by single spaces,
    with no white space at either end; it leaves such a text as it is, and
    so applying it twice is applying it once. *)
Theorem collapseWhitespace_idempotent (s : string) :
  collapsed (collapseWhitespace s) = true /\
  (collapsed s = true -> collapseWhitespace s = s) /\
  collapseWhitespace (collapseWhitespace s) = collapseWhitespace s.
Proof.
  assert (forall s, collapsed (collapseWhitespace s) = true) as Hout.
  { intros s0. unfold collapsed, collapseWhitespace, trim.
    rewrite trimEnd_no_trailing, andb_true_r.
    apply trimEnd_singleSpaces, trimStart_singleSpaces, replaceRuns_singleSpaces. }
  assert (forall s, collapsed s = true -> collapseWhitespace s = s) as Hid.
  { intros s0 [Hs Hend]%andb_true_iff. apply negb_true_iff in Hend.
    unfold collapseWhitespace, trim.
    rewrite (replaceRuns_id false s0 (singleSpaces_true_false s0 Hs)).
    rewrite (singleSpaces_true_trimStart s0 Hs). by apply trimEnd_id. }
  split; [apply Hout|]. split; [apply Hid|]. apply Hid, Hout.
Qed.

End CollapseWhitespace.

Section TruncateRunes.
Import JsString StringUtilsMore.

Lemma length_string_of_list_ascii (l : list ascii) :
  String.length (string_of_list_ascii l) = length l.
Proof. induction l as [|c l IH]; [done|]. cbn. by rewrite IH. Qed.

Lemma length_list_ascii_of_string (s : string) :
  length (list_ascii_of_string s) = String.length s.
Proof. induction s as [|c s IH]; [done|]. cbn. by rewrite IH. Qed.

Lemma string_length_app (a b : string) :
  String.length (a ++ b) = (String.length a + String.length b)%nat.
Proof.
  induction a as [|c a IH]; [done|].
  change (String c a ++ b) with (String c (a ++ b)). cbn. by rewrite IH.
Qed.

(** X25. [truncateRunes] with a limit that is not negative returns a text
    of at most the limit plus the length of the suffix: the text itself when
    it fits, its first [maxRunes] code units followed by the suffix when it
    does not.  A negative limit does not empty the text: [slice] then drops
    that many code units from the end before the suffix is added. *)
Theorem truncateRunes_length (s : string) (maxRunes : Z) (suffix : option string) :
  let suffix' := default "..." suffix in
  let result := truncateRunes s maxRunes suffix in
  (0 <= maxRunes ->
     Z.of_nat (String.length result) <= maxRunes + Z.of_nat (String.length suffix') /\
     (Z.of_nat (String.length s) <= maxRunes -> result = s) /\
     (maxRunes < Z.of_nat (String.length s) ->
        result = string_of_list_ascii (take (Z.to_nat maxRunes) (list_ascii_of_string s))
                 ++ suffix')) /\
  (maxRunes < 0 ->
     result = string_of_list_ascii
                (take (String.length s - Z.to_nat (- maxRunes)) (list_ascii_of_string s))
              ++ suffix').
Proof.
  cbn zeta. unfold truncateRunes, sliceTo. rewrite !length_list_ascii_of_string.
  split.
  - intros Hmax. destruct (Z.leb_spec (Z.of_nat (String.length s)) maxRunes) as [Hfit|Hlong].
    + split; [lia|]. split; [done | lia].
    + assert ((maxRunes <? 0) = false) as -> by lia.
      rewrite Z.min_l by lia.
      split; [|split; [lia | done]].
      rewrite string_length_app, length_string_of_list_ascii, length_take,
        length_list_ascii_of_string. lia.
  - intros Hneg. destruct (Z.leb_spec (Z.of_nat (String.length s)) maxRunes) as [Hfit|Hlong];
      [lia|].
    assert ((maxRunes <? 0) = true) as -> by lia.
    do 3 f_equal. lia.
Qed.

End TruncateRunes.

(** ** Message formatting *)

Section MessagesProperties.
Import JsString ContentOverlap Messages.

Lemma length_substring_le (n m : nat) (s : string) :
  (String.length (String.substring n m s) <= m)%nat.
Proof.
  revert n m. induction s as [|c s IH]; intros n m.
  - destruct n, m; cbn; lia.
  - destruct n as [|n]; cbn [String.substring].
    + destruct m as [|m]; [cbn; lia|]. cbn [String.length]. specialize (IH 0%nat m). lia.
    + apply IH.
Qed.

(** X26. The subject [formatSubagentEndMessage] builds carries at most 53
    code units of the task description: its length is at most 68 plus the
    lengths of the subagent type and of the tool use identifier. *)
Theorem formatSubagentEndMessage_length (subagentType taskDescription : option string)
    (shortToolUseID : string) :
  (String.length (formatSubagentEndMessage subagentType taskDescription shortToolUseID)
   <= 68 + String.length (default EmptyString subagentType)
         + String.length shortToolUseID)%nat.
Proof.
  unfold formatSubagentEndMessage, joinParts.
  set (head := match subagentType with
               | Some t => if truthy (Some t) then ["Task (" ++ t ++ ")"] else ["Task"]
               | None => ["Task"]
               end).
  assert (exists h, head = [h] /\
            (String.length h <= 7 + String.length (default EmptyString subagentType))%nat)
    as (h & -> & Hh).
  { unfold head. destruct subagentType as [t|]; [|exists "Task"; split; [done|cbn; lia]].
    destruct (truthy (Some t)); [|exists "Task"; split; [done|cbn; lia]].
    eexists. split; [done|]. cbn [default from_option id].
    rewrite !string_length_app. cbn. lia. }
  set (desc := fun d : string =>
                 if (50 <? String.length d)%nat
                 then String.substring 0 50 d ++ "..." else d).
  assert (forall d, String.length (desc d) <= 53)%nat as Hdesc.
  { intros d. unfold desc. destruct (Nat.ltb_spec 50 (String.length d)); [|lia].
    rewrite string_length_app. pose proof (length_substring_le 0 50 d). cbn. lia. }
  destruct taskDescription as [d|]; [destruct (truthy (Some d))|].
  - fold (desc d). specialize (Hdesc d).
    change (String.length (h ++ " - " ++ desc d ++ " - " ++ "[" ++ shortToolUseID ++ "]")
            <= 68 + String.length (default EmptyString subagentType)
               + String.length shortToolUseID)%nat.
    rewrite !string_length_app. cbn [String.length]. lia.
  - change (String.length (h ++ " - " ++ "[" ++ shortToolUseID ++ "]")
            <= 68 + String.length (default EmptyString subagentType)
               + String.length shortToolUseID)%nat.
    rewrite !string_length_app. cbn [String.length]. lia.
  - change (String.length (h ++ " - " ++ "[" ++ shortToolUseID ++ "]")
            <= 68 + String.length (default EmptyString subagentType)
               + String.length shortToolUseID)%nat.
    rewrite !string_length_app. cbn [String.length]. lia.
Qed.

End MessagesProperties.

(** ** The final split keeps the books *)

Section FinalSplitMore.
Import Attribution.

(** X27. Whatever the inputs, the human part of the returned attribution is
    a net account: modified and added lines make up the lines the human
    added, modified and removed lines the lines the human removed, and
    [humanAdded] and [humanRemoved] are not negative and never both
    positive. *)
Theorem attribution_net_human_change (baseFiles shadowFiles headFiles : gmap string string)
    (now : string) (filesTouched : list string)
    (promptAttributions : list PromptAttribution) (ia : InitialAttribution) :
  calculateAttributionWithAccumulated baseFiles shadowFiles headFiles now
    filesTouched promptAttributions = Some ia ->
  let t := userAndAgentTotals baseFiles shadowFiles headFiles filesTouched
             promptAttributions in
  humanModified ia + humanAdded ia = totalUserAdded t /\
  humanModified ia + humanRemoved ia = totalUserRemoved t /\
  0 <= humanAdded ia /\ 0 <= humanRemoved ia /\
  (humanAdded ia = 0 \/ humanRemoved ia = 0).
Proof.
  unfold calculateAttributionWithAccumulated. case_bool_decide; [done|].
  intros [= <-]. cbn zeta.
  destruct (userAndAgentTotals _ _ _ _ _). cbn. lia.
Qed.

End FinalSplitMore.

(** ** The further properties on sample inputs *)

Section MoreWitnesses.
Import StateMachine SessionHelpers JsString StringUtils Attribution Vocabulary
  MoreVocabulary ContentOverlap ContentOverlapMore StringUtilsMore Samples MoreSamples.

Lemma calculatePromptAttribution_per_file_witness :
  (let pa := calculatePromptAttribution oneLineBase None twoLineShadow 1 in
   userAddedPerFile pa !! "f.ts" = Some 1 /\ userLinesAdded pa = 1 /\
   agentLinesAdded pa = 0 /\ agentLinesRemoved pa = 0) /\
  (let pa := calculatePromptAttribution oneLineBase None protoWorktree 1 in
   userAddedPerFile pa !! "__proto__" = None /\ userAddedPerFile pa = ∅ /\
   userLinesAdded pa = 2 /\
   agentLinesAdded pa = 0 /\ agentLinesRemoved pa = 0).
Proof.
  cbn zeta. split.
  - destruct (calculatePromptAttribution_per_file oneLineBase None twoLineShadow 1)
      as (Hper & Hsum & Hagent).
    split; [rewrite Hper; reflexivity|]. split; [reflexivity|]. exact (Hagent eq_refl).
  - destruct (calculatePromptAttribution_per_file oneLineBase None protoWorktree 1)
      as (Hper & Hsum & Hagent).
    split; [rewrite Hper; reflexivity|]. split; [vm_compute; reflexivity|].
    split; [rewrite Hsum; vm_compute; reflexivity|]. exact (Hagent eq_refl).
Defined.

Lemma calculatePromptAttribution_no_user_edit_witness :
  let pa := calculatePromptAttribution oneLineBase (Some twoLineShadow) twoLineShadow 2 in
  userLinesAdded pa = 0 /\ userLinesRemoved pa = 0 /\ userAddedPerFile pa = ∅.
Proof.
  apply (calculatePromptAttribution_no_user_edit oneLineBase (Some twoLineShadow)
           twoLineShadow 2).
  intros filePath content Hcontent. unfold getOrEmpty. cbn [default from_option id].
  rewrite Hcontent. reflexivity.
Defined.

Lemma agent_only_commit_witness :
  exists ia,
    calculateAttributionWithAccumulated oneLineBase twoLineShadow twoLineShadow "now"
      ["f.ts"] [] = Some ia /\
    humanAdded ia = 0 /\ humanModified ia = 0 /\ humanRemoved ia = 0 /\
    agentLines ia = 1 /\ totalCommitted ia = 1 /\ (agentPercentage ia == 100)%Q.
Proof.
  destruct (agent_only_commit oneLineBase twoLineShadow twoLineShadow "now" ["f.ts"])
    as (ia & Hia & H1 & H2 & H3 & H4 & H5 & H6).
  - discriminate.
  - intros path _. reflexivity.
  - intros path Hnot. unfold oneLineBase, twoLineShadow.
    rewrite !lookup_singleton_ne; [reflexivity | |];
      intros <-; apply Hnot; left.
  - exists ia. split; [exact Hia|]. split; [exact H1|]. split; [exact H2|].
    split; [exact H3|]. split; [exact H4|]. split; [exact H5 | exact H6].
Defined.

Lemma calculateAttributionWithAccumulated_order_witness :
  calculateAttributionWithAccumulated oneLineBase twoLineShadow selfModHead "now"
    ["f.ts"; "g.ts"] [humanTurn]
  = calculateAttributionWithAccumulated oneLineBase twoLineShadow selfModHead "now"
      ["g.ts"; "f.ts"] [humanTurn].
Proof.
  apply calculateAttributionWithAccumulated_order. apply perm_swap.
Defined.

Lemma stagedFilesOverlapWithContent_refines_witness :
  stagedFilesOverlapWithContent blobGit "entire/abc1234" None
    ["notes.md"; "README.md"] ["README.md"] = true /\
  hasOverlappingFiles ["notes.md"; "README.md"] ["README.md"] = true.
Proof.
  destruct (stagedFilesOverlapWithContent_refines blobGit "entire/abc1234" None
              ["notes.md"; "README.md"] ["README.md"]) as [Hrefines Hmodified].
  assert (stagedFilesOverlapWithContent blobGit "entire/abc1234" None
            ["notes.md"; "README.md"] ["README.md"] = true) as Htrue.
  { apply (Hmodified "README.md"); [right; left | left | discriminate]. }
  split; [exact Htrue | exact (Hrefines Htrue)].
Defined.

Lemma filesWithRemainingAgentChanges_sublist_witness :
  let remaining :=
    filesWithRemainingAgentChanges blobGit "entire/abc1234" None "h1"
      ["new.ts"; "draft.ts"] {[ "new.ts" ]} in
  "draft.ts" ∈ remaining /\ "new.ts" ∉ remaining.
Proof.
  cbn zeta.
  destruct (filesWithRemainingAgentChanges_sublist blobGit "entire/abc1234" None "h1"
              ["new.ts"; "draft.ts"] {[ "new.ts" ]}) as (_ & Hkept & Hsame & _).
  split.
  - apply Hkept; [right; left|]. intros Hin. apply elem_of_singleton in Hin. discriminate.
  - apply (Hsame "new.ts" "9b1d4f0 " "9b1d4f0"); [by apply elem_of_singleton | done..].
Defined.

Lemma filesOverlapWithContent_needs_committed_file_witness :
  filesOverlapWithContent sampleGit "entire/abc1234" "h1" (Some "p1") None
    ["ghost.ts"; "draft.ts"] = false.
Proof.
  apply filesOverlapWithContent_needs_committed_file. intros f Hin.
  apply elem_of_cons in Hin as [->|Hin];
    [|apply list_elem_of_singleton in Hin as ->];
    (split; [reflexivity | intros parent [= <-]; reflexivity]).
Defined.

Lemma filesOverlapWithContent_same_blob_witness :
  filesOverlapWithContent blobGit "entire/abc1234" "h1" None None ["draft.ts"; "new.ts"]
  = true.
Proof.
  apply (filesOverlapWithContent_same_blob blobGit "entire/abc1234" "h1" None None
           ["draft.ts"; "new.ts"] "new.ts" "let fresh = 1" "let fresh = 1"
           "9b1d4f0 " "9b1d4f0"); [right; left | reflexivity..].
Defined.

Lemma countLines_append_witness :
  countLines (unlines ["a"; "b"] ++ unlines ["c"]) = 3 /\
  countLines ("a" ++ "b") = countLines "a" + countLines "b" - 1.
Proof.
  split.
  - destruct (countLines_append (unlines ["a"; "b"]) (unlines ["c"])) as (_ & Hadd & _).
    rewrite Hadd; [reflexivity | right; reflexivity].
  - destruct (countLines_append "a" "b") as (_ & _ & Hjoin).
    apply Hjoin; [discriminate | reflexivity | discriminate].
Defined.

Lemma collapseWhitespace_idempotent_witness :
  collapseWhitespace "fix the parser" = "fix the parser" /\
  collapseWhitespace (String "009" "fix  the" ++ String newline " parser  ")
  = "fix the parser".
Proof.
  split; [|reflexivity].
  destruct (collapseWhitespace_idempotent "fix the parser") as (_ & Hid & _).
  apply Hid. reflexivity.
Defined.

Lemma truncateRunes_length_witness :
  truncateRunes "refactor" 5 None = "refac..." /\
  truncateRunes "refactor" 8 None = "refactor" /\
  truncateRunes "refactor" (-2) (Some "~") = "refact~".
Proof.
  destruct (truncateRunes_length "refactor" 5 None) as [Hpos _].
  destruct (Hpos ltac:(lia)) as (_ & _ & Hcut).
  destruct (truncateRunes_length "refactor" 8 None) as [Hpos8 _].
  destruct (Hpos8 ltac:(lia)) as (_ & Hfit & _).
  destruct (truncateRunes_length "refactor" (-2) (Some "~")) as [_ Hneg].
  split; [|split].
  - rewrite Hcut; [reflexivity | cbn; lia].
  - apply Hfit. cbn. lia.
  - rewrite Hneg; [reflexivity | lia].
Defined.

Lemma attribution_net_human_change_witness :
  exists ia,
    calculateAttributionWithAccumulated selfModBase selfModShadow selfModHead "now"
      ["f.ts"] [humanTurn] = Some ia /\
    humanModified ia + humanAdded ia = 1 /\ humanModified ia + humanRemoved ia = 1 /\
    (humanAdded ia = 0 \/ humanRemoved ia = 0).
Proof.
  eexists. split; [reflexivity|].
  match goal with |- context [humanModified ?ia] =>
    destruct (attribution_net_human_change selfModBase selfModShadow selfModHead "now"
                ["f.ts"] [humanTurn] ia eq_refl) as (H1 & H2 & _ & _ & H3)
  end.
  split; [exact H1|]. split; [exact H2 | exact H3].
Defined.

End MoreWitnesses.
